(** * The RLM processing core of rlm_processor.py, embedded in Rocq

    The chunkers, the relevance filter, the chunk processor, the
    aggregator and the top-level pipeline of
    [rlm-skill/scripts/rlm_processor.py], and the two functions of
    [rlm-skill/scripts/directory_processor.py] that feed them
    ([build_combined_content] and [process_combined]), as Rocq functions,
    followed by the properties of them that the specification states and
    by further properties read off the code.

    Conventions.
    - A Python [str] is a [list ascii]: the characters are the code points
      below 256 and the character classes ([str.isspace], the regex classes
      [\s] and [\w], [str.lower]) are Python's on that range.
    - A Python [int] is a [Z]; [len] is [Z.of_nat (length _)].
    - A [while] loop and the recursion of the aggregator take a [fuel]
      argument; running out of fuel is the outcome of a computation that
      does not return.
    - The text-generation oracle ([llm_query]) is a parameter: a function
      of an abstract world that returns a reply or raises.  Every call is
      recorded in a log.  Progress messages written to stderr are left
      out. *)

From Stdlib Require Import Ascii String List ZArith Lia Bool Arith Sorted.
From Stdlib Require Import Numbers.DecimalString.
Import ListNotations.

Open Scope Z_scope.

(** ** Python strings *)

Definition str := list ascii.

Definition lit (s : string) : str := list_ascii_of_string s.

Definition len {A} (l : list A) : Z := Z.of_nat (length l).

Definition str_eqb (a b : str) : bool :=
  if list_eq_dec ascii_dec a b then true else false.

(** [s[a:b]] with Python's treatment of negative and out-of-range bounds. *)
Definition norm_index (n i : Z) : Z :=
  if i <? 0 then Z.max (i + n) 0 else Z.min i n.

Definition slice {A} (s : list A) (a b : Z) : list A :=
  let lo := norm_index (len s) a in
  let hi := norm_index (len s) b in
  firstn (Z.to_nat (hi - lo)) (skipn (Z.to_nat lo) s).

(** [sep.join(parts)] *)
Fixpoint join (sep : str) (parts : list str) : str :=
  match parts with
  | [] => []
  | [p] => p
  | p :: rest => p ++ sep ++ join sep rest
  end.

Fixpoint starts_with (p s : str) : bool :=
  match p, s with
  | [], _ => true
  | _ :: _, [] => false
  | a :: p', b :: s' => Ascii.eqb a b && starts_with p' s'
  end.

(** [needle in s] *)
Fixpoint contains (needle s : str) : bool :=
  starts_with needle s ||
  match s with
  | [] => false
  | _ :: s' => contains needle s'
  end.

(** [s.split(sep)] for a non-empty [sep]: the leftmost occurrences, not
    overlapping.  [skip] counts the characters of a separator still to be
    passed over, [cur] is the current segment, reversed. *)
Fixpoint split_aux (sep s : str) (skip : nat) (cur : str) : list str :=
  match s with
  | [] => [rev cur]
  | c :: s' =>
      match skip with
      | S k => split_aux sep s' k cur
      | O =>
          if starts_with sep s
          then rev cur :: split_aux sep s' (length sep - 1) []
          else split_aux sep s' 0 (c :: cur)
      end
  end.

Definition split (sep s : str) : list str := split_aux sep s 0 [].

Definition code (c : ascii) : Z := Z.of_N (N_of_ascii c).

(** [c.isspace()], also the regex class [\s]. *)
Definition is_space (c : ascii) : bool :=
  let n := code c in
  ((9 <=? n) && (n <=? 13)) || ((28 <=? n) && (n <=? 32))
  || (n =? 133) || (n =? 160).

(** The regex class [\w]. *)
Definition is_word (c : ascii) : bool :=
  let n := code c in
  ((48 <=? n) && (n <=? 57)) || ((65 <=? n) && (n <=? 90)) || (n =? 95)
  || ((97 <=? n) && (n <=? 122))
  || (n =? 170) || (n =? 178) || (n =? 179) || (n =? 181) || (n =? 185)
  || (n =? 186) || ((188 <=? n) && (n <=? 190))
  || ((192 <=? n) && (n <=? 214)) || ((216 <=? n) && (n <=? 246))
  || (248 <=? n).

(** [c.lower()] *)
Definition lower_char (c : ascii) : ascii :=
  let n := code c in
  if ((65 <=? n) && (n <=? 90)) || ((192 <=? n) && (n <=? 214))
     || ((216 <=? n) && (n <=? 222))
  then ascii_of_N (Z.to_N (n + 32)) else c.

Definition lower (s : str) : str := map lower_char s.

Fixpoint lstrip (s : str) : str :=
  match s with
  | c :: s' => if is_space c then lstrip s' else s
  | [] => []
  end.

(** [s.strip()] *)
Definition strip (s : str) : str := rev (lstrip (rev (lstrip s))).

(** [str(n)] for an integer. *)
Definition str_of_Z (n : Z) : str := lit (NilZero.string_of_int (Z.to_int n)).

Definition nl : str := lit (String "010" EmptyString).

(** ** Chunking strategies *)

(** The loop of [chunk_by_chars]; [start] and [chunks] are its variables. *)
Fixpoint chunk_by_chars_loop (fuel : nat) (content : str) (chunk_size overlap : Z)
    (start : Z) (chunks : list str) : option (list str) :=
  if start <? len content then
    match fuel with
    | O => None
    | S fuel' =>
        let end_ := Z.min (start + chunk_size) (len content) in
        let chunks := chunks ++ [slice content start end_] in
        let start :=
          if negb (overlap =? 0) && (end_ <? len content)
          then end_ - overlap else end_ in
        chunk_by_chars_loop fuel' content chunk_size overlap start chunks
    end
  else Some chunks.

Definition chunk_by_chars (fuel : nat) (content : str) (chunk_size overlap : Z)
    : option (list str) :=
  chunk_by_chars_loop fuel content chunk_size overlap 0 [].

(** [range(0, stop, step)] for [step >= 1]. *)
Definition range_step (stop step : nat) : list nat :=
  map (fun k => (k * step)%nat) (seq 0 ((stop + step - 1) / step)%nat).

Definition chunk_by_lines (content : str) (lines_per_chunk : nat) : list str :=
  let lines := split nl content in
  map (fun i => join nl (slice lines (Z.of_nat i) (Z.of_nat (i + lines_per_chunk))))
      (range_step (length lines) lines_per_chunk).

Definition nonblank (c : str) : bool :=
  match strip c with [] => false | _ => true end.

Definition chunk_by_separator (content separator : str) : list str :=
  map strip (filter nonblank (split separator content)).

(** [chunk_by_regex]: [re_split] stands for [re.split(pattern, _)]. *)
Definition chunk_by_regex (re_split : str -> list str) (content : str) : list str :=
  map strip (filter nonblank (re_split content)).

(** *** The patterns of [auto_chunk] *)

Definition is_char (x : string) (c : ascii) : bool :=
  match x with
  | String a EmptyString => Ascii.eqb a c
  | _ => false
  end.

Definition is_nl (c : ascii) : bool := is_char (String "010" EmptyString) c.

(** The length of the longest prefix of [s] whose characters satisfy [p]. *)
Fixpoint run_length (p : ascii -> bool) (s : str) : nat :=
  match s with
  | c :: s' => if p c then S (run_length p s') else O
  | [] => O
  end.

(** Three or more [ch], then a newline: the tail of [\n---+\n] after its
    first newline.  The result is the number of characters matched. *)
Definition rule_tail (ch : string) (s : str) : option nat :=
  let k := run_length (is_char ch) s in
  if (3 <=? k)%nat then
    match skipn k s with
    | c :: _ => if is_nl c then Some (S k) else None
    | [] => None
    end
  else None.

(** A match of [\n---+\n|\n===+\n] at the head of [s], with its length. *)
Definition doc_sep_at (s : str) : option nat :=
  match s with
  | c :: s' =>
      if is_nl c then
        match rule_tail "-" s' with
        | Some n => Some (S n)
        | None => option_map S (rule_tail "=" s')
        end
      else None
  | [] => None
  end.

(** [len(re.findall(pattern, s))] for a pattern that matches no empty string:
    [at_head] is a match at the head of the rest, [skip] the characters of
    the last match still to be passed over. *)
Fixpoint count_matches (at_head : str -> option nat) (s : str) (skip : nat) : Z :=
  match s with
  | [] => 0
  | _ :: s' =>
      match skip with
      | S k => count_matches at_head s' k
      | O =>
          match at_head s with
          | Some n => 1 + count_matches at_head s' (n - 1)
          | None => count_matches at_head s' 0
          end
      end
  end.

(** A match of [#+\s+] at the head of [s], with its length. *)
Definition header_at (s : str) : option nat :=
  let h := run_length (is_char "#") s in
  if (1 <=? h)%nat then
    let w := run_length is_space (skipn h s) in
    if (1 <=? w)%nat then Some (h + w)%nat else None
  else None.

(** [len(re.findall(r'^#+\s+', s, re.MULTILINE))]: [bol] says that the head
    of [s] is at the beginning of a line. *)
Fixpoint count_md_headers (s : str) (bol : bool) (skip : nat) : Z :=
  match s with
  | [] => 0
  | c :: s' =>
      match skip with
      | S k => count_md_headers s' (is_nl c) k
      | O =>
          match (if bol then header_at s else None) with
          | Some n => 1 + count_md_headers s' (is_nl c) (n - 1)
          | None => count_md_headers s' (is_nl c) 0
          end
      end
  end.

(** The lookahead [(?=#{1,2}\s+)]. *)
Definition h12_ahead (s : str) : bool :=
  match s with
  | a :: b :: rest =>
      is_char "#" a &&
      (is_space b ||
       (is_char "#" b && match rest with c :: _ => is_space c | [] => false end))
  | _ => false
  end.

(** [re.split(r'\n(?=#{1,2}\s+)', s)]; [cur] is the current piece, reversed. *)
Fixpoint split_h12 (s : str) (cur : str) : list str :=
  match s with
  | [] => [rev cur]
  | c :: s' =>
      if is_nl c && h12_ahead s'
      then rev cur :: split_h12 s' []
      else split_h12 s' (c :: cur)
  end.

(** [s.count('\n')] *)
Definition count_nl (s : str) : Z := len (filter is_nl s).

Inductive strategy :=
  | document_separator
  | markdown_headers
  | line_count
  | character_count.

(** [auto_chunk].  [json_objs] is computed by the source and never used.
    The two true divisions [total_chars / n < bound], with [n > 0], are
    written as [total_chars < bound * n]. *)
Definition auto_chunk (fuel : nat) (content : str) (target_chunk_size : Z)
    : option (list str * strategy) :=
  let doc_seps := count_matches doc_sep_at content 0 in
  let md_headers := count_md_headers content true 0 in
  let total_chars := len content in
  let total_lines := count_nl content in
  if (5 <? doc_seps) && (total_chars <? target_chunk_size * 2 * doc_seps)
  then Some (chunk_by_separator content (nl ++ lit "---"), document_separator)
  else
    let by_headers :=
      if 10 <? md_headers then
        let chunks := chunk_by_regex (fun s => split_h12 s []) content in
        if forallb (fun c => len c <? target_chunk_size * 2) chunks
        then Some chunks else None
      else None in
    match by_headers with
    | Some chunks => Some (chunks, markdown_headers)
    | None =>
        if (100 <? total_lines) && (total_chars <? 200 * total_lines)
        then
          let lines_per_chunk := Z.max 100 (target_chunk_size / 100) in
          Some (chunk_by_lines content (Z.to_nat lines_per_chunk), line_count)
        else
          option_map (fun chunks => (chunks, character_count))
                     (chunk_by_chars fuel content target_chunk_size 500)
    end.

(** ** Relevance filter *)

(** [enumerate(l)] *)
Fixpoint enumerate_from {A} (k : nat) (l : list A) : list (nat * A) :=
  match l with
  | [] => []
  | x :: l' => (k, x) :: enumerate_from (S k) l'
  end.

Definition enumerate {A} (l : list A) : list (nat * A) := enumerate_from 0 l.

(** The maximal runs of [\w] characters of [s]; [cur] is the current run,
    reversed. *)
Fixpoint word_runs (s : str) (cur : str) : list str :=
  match s with
  | [] => match cur with [] => [] | _ => [rev cur] end
  | c :: s' =>
      if is_word c then word_runs s' (c :: cur)
      else match cur with
           | [] => word_runs s' []
           | _ => rev cur :: word_runs s' []
           end
  end.

(** [re.findall(r'\b\w{4,}\b', s)] *)
Definition words4 (s : str) : list str :=
  filter (fun w => (4 <=? length w)%nat) (word_runs s []).

Definition stopwords : list str :=
  map lit ["what"; "when"; "where"; "which"; "about"; "this"; "that";
           "with"; "from"; "have"; "does"; "find"; "list"; "show"]%string.

Definition mem (w : str) (l : list str) : bool := existsb (str_eqb w) l.

(** [re.search('|'.join(re.escape(kw) for kw in keywords), chunk, re.IGNORECASE)] *)
Definition search_any (keywords : list str) (chunk : str) : bool :=
  existsb (fun kw => contains (lower kw) (lower chunk)) keywords.

(** [filter_relevant_chunks].  [len(relevant) < len(chunks) * 0.1] compares
    an integer with the double nearest to a tenth of the chunk count, which
    is [10 * len(relevant) < len(chunks)] for every chunk count below 2^53. *)
Definition filter_relevant_chunks (chunks : list str) (query : str)
    (keywords : option (list str)) : list (nat * str) :=
  let keywords :=
    match keywords with
    | Some (kw :: kws) => kw :: kws
    | _ => filter (fun w => negb (mem w stopwords)) (words4 (lower query))
    end in
  match keywords with
  | [] => enumerate chunks
  | _ =>
      let relevant := filter (fun ic => search_any keywords (snd ic)) (enumerate chunks) in
      if 10 * len relevant <? len chunks then enumerate chunks else relevant
  end.

(** ** The oracle and the effects of the pipeline *)

Inductive model := DEFAULT_MODEL | FAST_MODEL.

(** The outcome of one oracle call: a reply, or an exception with its
    message. *)
Inductive reply :=
  | Reply (text : str)
  | Fails (message : str).

Record call := Call {
  call_model : model;
  call_prompt : str;
  call_max_tokens : Z
}.

Section Pipeline.

Variable World : Type.
Variable oracle : World -> model -> str -> Z -> reply * World.

Record state := State {
  world : World;
  calls : list call
}.

(** A computation returns, raises, or does not come back. *)
Inductive outcome (A : Type) :=
  | Done (a : A) (s : state)
  | Raised (e : str) (s : state)
  | OutOfFuel.

Arguments Done {A} a s.
Arguments Raised {A} e s.
Arguments OutOfFuel {A}.

Definition M (A : Type) := state -> outcome A.

Definition ret {A} (a : A) : M A := fun s => Done a s.

Definition bind {A B} (m : M A) (k : A -> M B) : M B :=
  fun s =>
    match m s with
    | Done a s' => k a s'
    | Raised e s' => Raised e s'
    | OutOfFuel => OutOfFuel
    end.

(** [try: m  except Exception as e: h e] *)
Definition try_except {A} (m : M A) (h : str -> M A) : M A :=
  fun s =>
    match m s with
    | Done a s' => Done a s'
    | Raised e s' => h e s'
    | OutOfFuel => OutOfFuel
    end.

Definition diverge {A} : M A := fun _ => OutOfFuel.

Definition llm_query (prompt : str) (m : model) (max_tokens : Z) : M str :=
  fun s =>
    let (r, w) := oracle (world s) m prompt max_tokens in
    let s' := State w (calls s ++ [Call m prompt max_tokens]) in
    match r with
    | Reply text => Done text s'
    | Fails e => Raised e s'
    end.

Definition llm_query_fast (prompt : str) (max_tokens : Z) : M str :=
  llm_query prompt FAST_MODEL max_tokens.

Definition query_fn (fast_model : bool) (prompt : str) (max_tokens : Z) : M str :=
  if fast_model then llm_query_fast prompt max_tokens
  else llm_query prompt DEFAULT_MODEL max_tokens.

(** ** Chunk processor *)

Definition NO_RELEVANT_INFO : str := lit "NO_RELEVANT_INFO".

Definition chunk_prompt (chunk : str) (chunk_index total_chunks : Z) (query : str) : str :=
  lit "You are analyzing section " ++ str_of_Z (chunk_index + 1) ++ lit " of "
    ++ str_of_Z total_chunks ++ lit " of a large document." ++ nl
  ++ nl
  ++ lit "ORIGINAL QUERY: " ++ query ++ nl
  ++ nl
  ++ lit "DOCUMENT SECTION:" ++ nl
  ++ lit "---" ++ nl
  ++ chunk ++ nl
  ++ lit "---" ++ nl
  ++ nl
  ++ lit "INSTRUCTIONS:" ++ nl
  ++ lit "1. Extract any information from this section relevant to answering the query" ++ nl
  ++ lit "2. If nothing relevant is found, respond with exactly: NO_RELEVANT_INFO" ++ nl
  ++ lit "3. Be concise but preserve important details" ++ nl
  ++ lit "4. Note any partial information that might be useful combined with other sections" ++ nl
  ++ nl
  ++ lit "YOUR ANALYSIS:".

Definition process_chunk (chunk : str) (chunk_index total_chunks : Z) (query : str)
    (fast_model : bool) : M (option str) :=
  try_except
    (bind (query_fn fast_model (chunk_prompt chunk chunk_index total_chunks query) 2048)
          (fun result =>
             if contains NO_RELEVANT_INFO result then ret None
             else ret (Some (strip result))))
    (fun _ => ret None).

(** ** Aggregator *)

Definition no_information : str :=
  lit "No relevant information found in the provided context for this query.".

Definition summarize_query : str := lit "Summarize these findings".

Definition section_block (r : Z * str) : str :=
  lit "[Section " ++ str_of_Z (fst r + 1) ++ lit "]" ++ nl ++ snd r.

Definition combine_results (results : list (Z * str)) : str :=
  join (nl ++ nl) (map section_block results).

Definition dquote : str := lit (String "034" EmptyString).

Definition aggregation_prompt (combined query : str) : str :=
  lit "You analyzed a large document in sections. Here are the relevant findings:" ++ nl
  ++ nl
  ++ combined ++ nl
  ++ nl
  ++ lit "---" ++ nl
  ++ nl
  ++ lit "ORIGINAL QUERY: " ++ query ++ nl
  ++ nl
  ++ lit "INSTRUCTIONS:" ++ nl
  ++ lit "1. Synthesize all findings into a comprehensive answer" ++ nl
  ++ lit "2. Resolve any contradictions between sections" ++ nl
  ++ lit "3. Cite specific sections when relevant (e.g., " ++ dquote
       ++ lit "According to Section 3..." ++ dquote ++ lit ")" ++ nl
  ++ lit "4. If the query cannot be fully answered, explain what's missing" ++ nl
  ++ nl
  ++ lit "YOUR FINAL ANSWER:".

(** [fuel] bounds the depth of the recursion. *)
Fixpoint aggregate_results (fuel : nat) (results : list (Z * str)) (query : str)
    (fast_model : bool) : M str :=
  match fuel with
  | O => diverge
  | S fuel' =>
      match results with
      | [] => ret no_information
      | _ =>
          let combined := combine_results results in
          bind
            (if 50000 <? len combined then
               let mid := (length results / 2)%nat in
               bind (aggregate_results fuel' (firstn mid results) summarize_query fast_model)
                    (fun left_agg =>
               bind (aggregate_results fuel' (skipn mid results) summarize_query fast_model)
                    (fun right_agg =>
               ret (lit "Summary Part 1:" ++ nl ++ left_agg ++ nl ++ nl
                    ++ lit "Summary Part 2:" ++ nl ++ right_agg)))
             else ret combined)
            (fun combined =>
               try_except
                 (query_fn fast_model (aggregation_prompt combined query) 4096)
                 (fun e =>
                    ret (lit "Error during aggregation: " ++ e ++ nl ++ nl
                         ++ lit "Raw findings:" ++ nl ++ slice combined 0 5000)))
      end
  end.

(** ** Top-level pipeline *)

(** Step 3 of [rlm_process]. *)
Definition select_chunks (filter_chunks : bool) (chunks : list str) (query : str)
    : list (nat * str) :=
  if filter_chunks && (3 <? len chunks)
  then filter_relevant_chunks chunks query None
  else enumerate chunks.

(** Step 4 of [rlm_process]: the loop over [indexed_chunks]; [results] is
    its accumulator.  An absent or empty extraction is dropped. *)
Fixpoint process_selected (indexed_chunks : list (nat * str)) (total_chunks : Z)
    (query : str) (fast_model : bool) (results : list (Z * str)) : M (list (Z * str)) :=
  match indexed_chunks with
  | [] => ret results
  | (orig_idx, chunk) :: rest =>
      bind (process_chunk chunk (Z.of_nat orig_idx) total_chunks query fast_model)
           (fun result =>
              let results :=
                match result with
                | Some (c :: r) => results ++ [(Z.of_nat orig_idx, c :: r)]
                | _ => results
                end in
              process_selected rest total_chunks query fast_model results)
  end.

(** [rlm_process] from its second step on: [content] is the text that the
    loader returned for [context_file]. *)
Definition rlm_process (fuel : nat) (content query : str) (chunk_size : Z)
    (fast_model filter_chunks : bool) : M str :=
  match auto_chunk fuel content chunk_size with
  | None => diverge
  | Some (chunks, _) =>
      let indexed_chunks := select_chunks filter_chunks chunks query in
      bind (process_selected indexed_chunks (len chunks) query fast_model [])
           (fun results => aggregate_results fuel results query fast_model)
  end.

End Pipeline.

Arguments State {World} world calls.
Arguments world {World} s.
Arguments calls {World} s.
Arguments Done {World A} a s.
Arguments Raised {World A} e s.
Arguments OutOfFuel {World A}.
Arguments ret {World A} a s.
Arguments bind {World A B} m k s.
Arguments try_except {World A} m h s.
Arguments llm_query {World} oracle prompt m max_tokens s.
Arguments query_fn {World} oracle fast_model prompt max_tokens s.
Arguments process_chunk {World} oracle chunk chunk_index total_chunks query fast_model s.
Arguments aggregate_results {World} oracle fuel results query fast_model s.
Arguments process_selected {World} oracle indexed_chunks total_chunks query fast_model results s.
Arguments rlm_process {World} oracle fuel content query chunk_size fast_model filter_chunks s.

(** ** Auxiliary notions for the statements *)

(** The ceiling of [a / b] for [b > 0]. *)
Definition ceil_div (a b : Z) : Z := (a + b - 1) / b.

(** The [n] windows of [chunk_size] characters that start at [start],
    [start + step], ... *)
Fixpoint windows (content : str) (chunk_size step : Z) (n : nat) (start : Z) : list str :=
  match n with
  | O => []
  | S k =>
      slice content start (Z.min (start + chunk_size) (len content))
      :: windows content chunk_size step k (start + step)
  end.

(** The number of windows of [chunk_by_chars] from [start] to the end of
    the content. *)
Definition windows_from (content : str) (chunk_size overlap start : Z) : nat :=
  Z.to_nat (ceil_div (len content - start - overlap) (chunk_size - overlap)).

(** The value of [start] after one more turn of the loop of
    [chunk_by_chars]. *)
Definition next_start (content : str) (chunk_size overlap start : Z) : Z :=
  let end_ := Z.min (start + chunk_size) (len content) in
  if negb (overlap =? 0) && (end_ <? len content) then end_ - overlap else end_.

(** The chunks without the overlap region: every chunk after the first
    loses its first [overlap] characters. *)
Definition drop_overlap (overlap : Z) (chunks : list str) : list str :=
  match chunks with
  | [] => []
  | c :: rest => c :: map (skipn (Z.to_nat overlap)) rest
  end.

(** The groups of [lines_per_chunk] lines that [chunk_by_lines] joins. *)
Definition line_groups (lines_per_chunk : nat) (lines : list str) : list (list str) :=
  map (fun i => firstn lines_per_chunk (skipn i lines))
      (range_step (length lines) lines_per_chunk).

(** The content of the end-to-end chunking scenario. *)
Definition a_100k : str := repeat "a"%char (Z.to_nat 100000).

(** The chunk sizes and the strategy of a result of [auto_chunk]. *)
Definition sizes (r : list str * strategy) : list Z * strategy :=
  (map len (fst r), snd r).

(** A world in which the oracle answers every prompt with a fixed text. *)
Definition constant_oracle (text : str) : unit -> model -> str -> Z -> reply * unit :=
  fun w _ _ _ => (Reply text, w).

Definition failing_oracle (message : str) : unit -> model -> str -> Z -> reply * unit :=
  fun w _ _ _ => (Fails message, w).

(** The model that the flag [fast_model] selects. *)
Definition model_of (fast_model : bool) : model :=
  if fast_model then FAST_MODEL else DEFAULT_MODEL.

(** The oracle call of [process_chunk] for one indexed chunk. *)
Definition chunk_call (total_chunks : Z) (query : str) (fast_model : bool)
    (ic : nat * str) : call :=
  Call (model_of fast_model)
       (chunk_prompt (snd ic) (Z.of_nat (fst ic)) total_chunks query) 2048.

(** What [process_chunk] makes of the reply of the oracle. *)
Definition extraction_of (r : reply) : option str :=
  match r with
  | Fails _ => None
  | Reply text => if contains NO_RELEVANT_INFO text then None else Some (strip text)
  end.

(** An extraction of 50,000 characters. *)
Definition oversized_extraction : str := repeat "x"%char (Z.to_nat 50000).

(** ** The directory processor (directory_processor.py) *)

Module DirectoryProcessor.

Record FileEntry := {
  abs_path : str;
  rel_path : str;
  size_bytes : Z;
  file_type : str;
  priority_group : str;
  content : option str;
  error : option str
}.

Definition file_marker (entry : FileEntry) : str :=
  lit "=== FILE: " ++ rel_path entry ++ lit " ===".

(** [build_combined_content]: the loop appends to [parts]. *)
Definition build_combined_content (files : list FileEntry) (manifest : str) : str :=
  let parts :=
    fold_left
      (fun parts entry =>
         match content entry with
         | Some c => parts ++ [file_marker entry; c; []]
         | None => parts
         end)
      files [manifest; []] in
  join nl parts.

(** [process_combined], with [rlm_processor] imported: the chunkers, the
    filter, the chunk processor and the aggregator are those of
    rlm_processor.py, and the loop over the chunks is the one of
    [rlm_process]. *)
Definition process_combined {World : Type}
    (oracle : World -> model -> str -> Z -> reply * World)
    (fuel : nat) (combined_content query : str) (chunk_size : Z) (fast_model : bool)
    : M World str :=
  match auto_chunk fuel combined_content chunk_size with
  | None => diverge World
  | Some (chunks, _) =>
      let indexed_chunks :=
        if 3 <? len chunks then filter_relevant_chunks chunks query None
        else enumerate chunks in
      bind (process_selected oracle indexed_chunks (len chunks) query fast_model [])
           (fun results => aggregate_results oracle fuel results query fast_model)
  end.

End DirectoryProcessor.

(** What [build_combined_content] adds for one file. *)
Definition file_block (entry : DirectoryProcessor.FileEntry) : str :=
  match DirectoryProcessor.content entry with
  | Some c => nl ++ DirectoryProcessor.file_marker entry ++ nl ++ c ++ nl
  | None => []
  end.

(** The keywords that [filter_relevant_chunks] searches for: the given
    ones, or else the words of four characters or more of the query that are
    not stop words. *)
Definition effective_keywords (query : str) (keywords : option (list str)) : list str :=
  match keywords with
  | Some (kw :: kws) => kw :: kws
  | _ => filter (fun w => negb (mem w stopwords)) (words4 (lower query))
  end.

(** The chunks of [chunk_by_chars] for [0 <= overlap < chunk_size]. *)
Definition char_chunks (content : str) (chunk_size overlap : Z) : list str :=
  if chunk_size <? len content
  then windows content chunk_size (chunk_size - overlap)
         (windows_from content chunk_size overlap 0) 0
  else match content with [] => [] | _ => [content] end.

(** No whitespace at either end. *)
Definition stripped (s : str) : Prop :=
  lstrip s = s /\ lstrip (rev s) = rev s.

(** The answer of the aggregator when its oracle call fails. *)
Definition degraded_answer (e combined : str) : str :=
  lit "Error during aggregation: " ++ e ++ nl ++ nl
  ++ lit "Raw findings:" ++ nl ++ slice combined 0 5000.

(** The answer that the aggregator makes of the reply to its one call. *)
Definition answer_of (r : reply) (combined : str) : str :=
  match r with
  | Reply text => text
  | Fails e => degraded_answer e combined
  end.

(** The text that the aggregator makes of the answers for the two halves
    of a split. *)
Definition summary_parts (left_agg right_agg : str) : str :=
  lit "Summary Part 1:" ++ nl ++ left_agg ++ nl ++ nl
  ++ lit "Summary Part 2:" ++ nl ++ right_agg.

(** A reply of which [process_chunk] and the loop over the chunks keep
    nothing: a failure, a reply with the sentinel, or a blank reply. *)
Definition no_extraction (r : reply) : Prop :=
  extraction_of r = None \/ extraction_of r = Some [].

(** A document of seven parts separated by lines of equals signs. *)
Definition equals_separated : str :=
  concat (repeat (lit "part" ++ nl ++ lit "===" ++ nl) 6) ++ lit "part".

(** A content of 100,000 newlines. *)
Definition newlines_100k : str := repeat "010"%char (Z.to_nat 100000).

(** The number of chunks and the strategy of a result of [auto_chunk]. *)
Definition count_and_strategy (r : list str * strategy) : Z * strategy :=
  (len (fst r), snd r).

(** * Properties *)

(** ** Lists, slices and integer division *)

Lemma some_eq {A} (a b : A) : Some a = Some b -> a = b.
Proof. congruence. Qed.

Lemma option_map_some {A B} (f : A -> B) (o : option A) (b : B) :
  option_map f o = Some b -> exists a, o = Some a /\ f a = b.
Proof.
  destruct o as [a|]; simpl; [|discriminate].
  intros H. exists a. split; congruence.
Qed.

Lemma len_nonneg {A} (l : list A) : 0 <= len l.
Proof. unfold len. lia. Qed.

Lemma len_app {A} (l1 l2 : list A) : len (l1 ++ l2) = len l1 + len l2.
Proof. unfold len. rewrite length_app. lia. Qed.

Lemma slice_in_range {A} (s : list A) (a b : Z) :
  0 <= a -> a <= b -> b <= len s ->
  slice s a b = firstn (Z.to_nat (b - a)) (skipn (Z.to_nat a) s).
Proof.
  intros Ha Hab Hb. unfold slice, norm_index.
  destruct (Z.ltb_spec a 0); [lia|].
  destruct (Z.ltb_spec b 0); [lia|].
  rewrite !Z.min_l by lia. reflexivity.
Qed.

Lemma len_slice {A} (s : list A) (a b : Z) :
  0 <= a -> a <= b -> b <= len s -> len (slice s a b) = b - a.
Proof.
  intros Ha Hab Hb. rewrite slice_in_range by assumption.
  unfold len in *. rewrite length_firstn, length_skipn. lia.
Qed.

Lemma slice_all {A} (s : list A) : slice s 0 (len s) = s.
Proof.
  rewrite slice_in_range by (pose proof (len_nonneg s); lia).
  simpl. unfold len. rewrite Z.sub_0_r, Nat2Z.id. apply firstn_all.
Qed.

Lemma ceil_div_pos (x d : Z) : 0 < d -> 0 < x -> 1 <= ceil_div x d.
Proof.
  intros Hd Hx. unfold ceil_div.
  apply Z.div_le_lower_bound; lia.
Qed.

Lemma ceil_div_one (x d : Z) : 0 < x -> x <= d -> ceil_div x d = 1.
Proof.
  intros Hx Hd. unfold ceil_div.
  symmetry. apply Z.div_unique with (r := x - 1); lia.
Qed.

Lemma ceil_div_step (x d : Z) : 0 < d -> ceil_div x d = ceil_div (x - d) d + 1.
Proof.
  intros Hd. unfold ceil_div.
  replace (x + d - 1) with ((x - d + d - 1) + 1 * d) by lia.
  rewrite Z.div_add by lia. reflexivity.
Qed.

Lemma ceil_div_lower (x d : Z) : 0 < d -> (ceil_div x d - 1) * d < x.
Proof.
  intros Hd. unfold ceil_div.
  pose proof (Z.div_mod (x + d - 1) d ltac:(lia)).
  pose proof (Z.mod_pos_bound (x + d - 1) d Hd). nia.
Qed.

Lemma ceil_div_upper (x d : Z) : 0 < d -> x <= ceil_div x d * d.
Proof.
  intros Hd. unfold ceil_div.
  pose proof (Z.div_mod (x + d - 1) d ltac:(lia)).
  pose proof (Z.mod_pos_bound (x + d - 1) d Hd). nia.
Qed.

(** ** The loop of [chunk_by_chars] *)

Section CharLoop.

Variable content : str.
Variables chunk_size overlap : Z.

Local Abbreviation L := (len content).

Lemma loop_exit (fuel : nat) (start : Z) (chunks : list str) :
  L <= start ->
  chunk_by_chars_loop fuel content chunk_size overlap start chunks = Some chunks.
Proof.
  intros H. destruct fuel; simpl;
    destruct (Z.ltb_spec start (len content)); auto; lia.
Qed.

Lemma loop_step (fuel : nat) (start : Z) (chunks : list str) :
  start < L ->
  chunk_by_chars_loop (S fuel) content chunk_size overlap start chunks =
  chunk_by_chars_loop fuel content chunk_size overlap
    (if negb (overlap =? 0) && (Z.min (start + chunk_size) L <? L)
     then Z.min (start + chunk_size) L - overlap
     else Z.min (start + chunk_size) L)
    (chunks ++ [slice content start (Z.min (start + chunk_size) L)]).
Proof.
  intros H. simpl.
  destruct (Z.ltb_spec start (len content)); [reflexivity | lia].
Qed.

(** More fuel does not change a result. *)
Lemma loop_fuel_mono (fuel fuel' : nat) (start : Z) (chunks r : list str) :
  (fuel <= fuel')%nat ->
  chunk_by_chars_loop fuel content chunk_size overlap start chunks = Some r ->
  chunk_by_chars_loop fuel' content chunk_size overlap start chunks = Some r.
Proof.
  revert fuel' start chunks.
  induction fuel as [|fuel IH]; intros fuel' start chunks Hle H.
  - destruct (Z.ltb_spec start L) as [Hlt|Hge].
    + simpl in H. destruct (Z.ltb_spec start (len content)); [discriminate|].
      lia.
    + rewrite loop_exit in * by assumption. assumption.
  - destruct (Z.ltb_spec start L) as [Hlt|Hge].
    + destruct fuel' as [|fuel']; [lia|].
      rewrite loop_step in * by assumption.
      apply IH; [lia | assumption].
    + rewrite loop_exit in * by assumption. assumption.
Qed.

(** With [overlap >= chunk_size] and a content longer than one chunk the
    window start stays at or below 0 and the loop never exits. *)
Lemma loop_stuck (fuel : nat) (start : Z) (chunks : list str) :
  1 <= chunk_size -> chunk_size <= overlap -> chunk_size < L -> start <= 0 ->
  chunk_by_chars_loop fuel content chunk_size overlap start chunks = None.
Proof.
  intros Hcs Hov HL. revert start chunks.
  induction fuel as [|fuel IH]; intros start chunks Hstart.
  - simpl. destruct (Z.ltb_spec start (len content)); [reflexivity | lia].
  - rewrite loop_step by lia.
    rewrite Z.min_l by lia.
    destruct (Z.eqb_spec overlap 0); [lia|].
    destruct (Z.ltb_spec (start + chunk_size) L); [|lia].
    simpl. apply IH. lia.
Qed.

(** With [overlap < chunk_size] the window start grows at every turn. *)
Lemma loop_returns (fuel : nat) (start : Z) (chunks : list str) :
  1 <= chunk_size -> overlap < chunk_size -> 0 <= start ->
  (Z.to_nat (L - start) <= fuel)%nat ->
  exists r, chunk_by_chars_loop fuel content chunk_size overlap start chunks = Some r.
Proof.
  intros Hcs Hov. revert start chunks.
  induction fuel as [|fuel IH]; intros start chunks Hstart Hfuel.
  - exists chunks. apply loop_exit. lia.
  - destruct (Z.ltb_spec start L) as [Hlt|Hge].
    + rewrite loop_step by assumption.
      apply IH;
        (destruct (negb (overlap =? 0)); simpl;
         [destruct (Z.ltb_spec (Z.min (start + chunk_size) L) L)|]; lia).
    + exists chunks. apply loop_exit. lia.
Qed.

Hypothesis overlap_range : 0 <= overlap < chunk_size.

Local Abbreviation step := (chunk_size - overlap).

Local Abbreviation remaining := (windows_from content chunk_size overlap).

(** The loop appends the windows that start at [start], [start + step], ... *)
Lemma loop_windows (fuel : nat) (start : Z) (chunks : list str) :
  0 <= start -> start + overlap < L -> (remaining start <= fuel)%nat ->
  chunk_by_chars_loop fuel content chunk_size overlap start chunks =
  Some (chunks ++ windows content chunk_size step (remaining start) start).
Proof.
  revert start chunks.
  induction fuel as [|fuel IH]; intros start chunks Hstart Hlt Hfuel.
  - pose proof (ceil_div_pos (L - start - overlap) step ltac:(lia) ltac:(lia)).
    unfold windows_from in Hfuel. lia.
  - rewrite loop_step by lia.
    destruct (Z.ltb_spec (start + chunk_size) L) as [Hin|Hout].
    + rewrite Z.min_l by lia.
      assert (Hnext : (if negb (overlap =? 0) && (start + chunk_size <? L)
                       then start + chunk_size - overlap else start + chunk_size)
                      = start + step).
      { destruct (Z.eqb_spec overlap 0); simpl.
        - lia.
        - destruct (Z.ltb_spec (start + chunk_size) L); lia. }
      rewrite Hnext.
      assert (Hrem : remaining start = S (remaining (start + step))).
      { unfold windows_from.
        rewrite (ceil_div_step (L - start - overlap) step) by (lia).
        replace (L - (start + step) - overlap) with (L - start - overlap - step) by lia.
        pose proof (ceil_div_pos (L - start - overlap - step) step
                      ltac:(lia) ltac:(lia)).
        lia. }
      rewrite IH; [| lia | lia | lia].
      rewrite Hrem. simpl. rewrite Z.min_l by lia.
      rewrite <- app_assoc. reflexivity.
    + rewrite Z.min_r by lia.
      assert (Hnext : (if negb (overlap =? 0) && (L <? L) then L - overlap else L) = L).
      { rewrite Z.ltb_irrefl, andb_false_r. reflexivity. }
      rewrite Hnext, loop_exit by lia.
      assert (Hrem : remaining start = 1%nat).
      { unfold windows_from. rewrite ceil_div_one; [reflexivity | lia | lia]. }
      rewrite Hrem. simpl. rewrite Z.min_r by lia. reflexivity.
Qed.

End CharLoop.

(** ** The windows *)

Lemma windows_length (content : str) (cs d : Z) (n : nat) (start : Z) :
  length (windows content cs d n start) = n.
Proof. revert start; induction n; intros; simpl; auto. Qed.

Lemma windows_nth (content : str) (cs d : Z) (n : nat) (start : Z) (i : nat) :
  (i < n)%nat ->
  nth_error (windows content cs d n start) i =
  Some (slice content (start + Z.of_nat i * d)
          (Z.min (start + Z.of_nat i * d + cs) (len content))).
Proof.
  revert start i. induction n as [|n IH]; intros start i Hi; [lia|].
  destruct i as [|i]; simpl windows; simpl nth_error.
  - do 2 f_equal; lia.
  - rewrite IH by lia. do 2 f_equal; lia.
Qed.

Lemma firstn_skipn_shared {A} (l : list A) (s cs o m : nat) :
  (o <= cs)%nat -> (s + cs <= length l)%nat -> (o <= m)%nat ->
  firstn o (firstn m (skipn (s + (cs - o)) l)) =
  skipn (length (firstn cs (skipn s l)) - o) (firstn cs (skipn s l)).
Proof.
  intros Ho Hl Hm.
  rewrite firstn_firstn, Nat.min_l by assumption.
  rewrite length_firstn, length_skipn, Nat.min_l by lia.
  rewrite skipn_firstn_comm, skipn_skipn.
  f_equal; [lia | f_equal; lia].
Qed.

(** Without their overlap regions, the windows from [start] on make up the
    content from [start + overlap] on. *)
Lemma windows_concat (content : str) (cs o : Z) (n : nat) (start : Z) :
  0 <= o < cs -> 0 <= start -> start + o < len content ->
  n = windows_from content cs o start ->
  concat (map (skipn (Z.to_nat o)) (windows content cs (cs - o) n start)) =
  skipn (Z.to_nat (start + o)) content.
Proof.
  intros Ho. revert start.
  induction n as [|n IH]; intros start Hstart Hlt Hn.
  - pose proof (ceil_div_pos (len content - start - o) (cs - o) ltac:(lia) ltac:(lia)).
    unfold windows_from in Hn. lia.
  - simpl.
    destruct (Z.ltb_spec (start + cs) (len content)) as [Hin|Hout].
    + rewrite Z.min_l by lia.
      rewrite IH; [| lia | lia |].
      * rewrite slice_in_range by lia.
        rewrite skipn_firstn_comm, skipn_skipn.
        replace (Z.to_nat (start + (cs - o) + o))
          with ((Z.to_nat (start + cs - start) - Z.to_nat o)
                + (Z.to_nat o + Z.to_nat start))%nat by lia.
        rewrite <- (skipn_skipn (Z.to_nat (start + cs - start) - Z.to_nat o)).
        rewrite firstn_skipn. f_equal. lia.
      * unfold windows_from in *.
        rewrite (ceil_div_step (len content - start - o) (cs - o)) in Hn by lia.
        replace (len content - (start + (cs - o)) - o)
          with (len content - start - o - (cs - o)) by lia.
        pose proof (ceil_div_pos (len content - start - o - (cs - o)) (cs - o)
                      ltac:(lia) ltac:(lia)).
        lia.
    + rewrite Z.min_r by lia.
      assert (n = O).
      { unfold windows_from in Hn.
        rewrite ceil_div_one in Hn by lia. lia. }
      subst n. simpl. rewrite app_nil_r.
      rewrite slice_in_range by lia.
      rewrite skipn_firstn_comm, skipn_skipn.
      rewrite firstn_all2.
      * f_equal. lia.
      * rewrite length_skipn. unfold len in *. lia.
Qed.

Lemma windows_from_step (content : str) (cs o start : Z) :
  0 <= o < cs -> start + cs < len content ->
  windows_from content cs o start = S (windows_from content cs o (start + (cs - o))).
Proof.
  intros Ho Hlt. unfold windows_from.
  rewrite (ceil_div_step (len content - start - o) (cs - o)) by lia.
  replace (len content - (start + (cs - o)) - o)
    with (len content - start - o - (cs - o)) by lia.
  pose proof (ceil_div_pos (len content - start - o - (cs - o)) (cs - o)
                ltac:(lia) ltac:(lia)).
  lia.
Qed.

Lemma next_start_stuck (content : str) (cs o : Z) (n : nat) :
  1 <= cs -> cs <= o -> cs < len content ->
  Nat.iter n (next_start content cs o) 0 <= 0.
Proof.
  intros Hcs Ho HL. induction n as [|n IH]; simpl; [lia|].
  unfold next_start at 1.
  rewrite Z.min_l by lia.
  destruct (Z.eqb_spec o 0); [lia|].
  destruct (Z.ltb_spec (Nat.iter n (next_start content cs o) 0 + cs) (len content));
    simpl; lia.
Qed.

(** ** Character mode *)

(** C3.  A content longer than [chunk_size], chunked with an overlap
    [0 <= overlap < chunk_size], gives [ceil((L - overlap) / (chunk_size -
    overlap))] chunks; every chunk but the last has [chunk_size] characters,
    and every chunk after the first begins with the last [overlap]
    characters of the chunk before it. *)
Theorem chunk_by_chars_count_and_overlap (content : str) (chunk_size overlap : Z) :
  chunk_size < len content ->
  0 <= overlap < chunk_size ->
  exists fuel chunks,
    (forall fuel', (fuel <= fuel')%nat ->
       chunk_by_chars fuel' content chunk_size overlap = Some chunks) /\
    len chunks = ceil_div (len content - overlap) (chunk_size - overlap) /\
    (forall i c, (S i < length chunks)%nat ->
       nth_error chunks i = Some c -> len c = chunk_size) /\
    (forall i p c,
       nth_error chunks i = Some p -> nth_error chunks (S i) = Some c ->
       firstn (Z.to_nat overlap) c = skipn (length p - Z.to_nat overlap) p).
Proof.
  intros HL Ho.
  remember (windows_from content chunk_size overlap 0) as n eqn:En.
  remember (chunk_size - overlap) as d eqn:Ed.
  pose proof (ceil_div_pos (len content - 0 - overlap) d ltac:(lia) ltac:(lia)) as Hpos.
  pose proof (ceil_div_lower (len content - 0 - overlap) d ltac:(lia)) as Hlow.
  assert (Hn : Z.of_nat n = ceil_div (len content - 0 - overlap) d)
    by (rewrite En; unfold windows_from; rewrite <- Ed; lia).
  exists n, (windows content chunk_size d n 0).
  split; [|split; [|split]].
  - intros fuel' Hfuel. unfold chunk_by_chars.
    rewrite (loop_windows content chunk_size overlap Ho fuel' 0 []);
      [rewrite <- En, <- Ed; reflexivity | lia | lia | lia].
  - unfold len at 1. rewrite windows_length, Hn. f_equal. lia.
  - intros i c Hi Hc. rewrite windows_length in Hi.
    rewrite windows_nth in Hc by lia. apply some_eq in Hc. subst c.
    assert (Z.of_nat i * d + d < len content - overlap) by nia.
    assert (0 <= Z.of_nat i * d) by nia.
    rewrite Z.min_l by lia. rewrite len_slice; lia.
  - intros i p c Hp Hc.
    assert (Hi : (S i < n)%nat).
    { rewrite <- (windows_length content chunk_size d n 0).
      apply nth_error_Some. congruence. }
    rewrite windows_nth in Hp, Hc by lia.
    apply some_eq in Hp, Hc. subst p c.
    assert (Hin : Z.of_nat i * d + d < len content - overlap) by nia.
    assert (Hi0 : 0 <= Z.of_nat i * d) by nia.
    assert (HS : Z.of_nat (S i) * d = Z.of_nat i * d + d) by lia.
    rewrite HS.
    rewrite (Z.min_l (0 + Z.of_nat i * d + chunk_size)) by lia.
    rewrite !slice_in_range by lia.
    replace (Z.to_nat (0 + (Z.of_nat i * d + d)))
      with (Z.to_nat (0 + Z.of_nat i * d) + (Z.to_nat chunk_size - Z.to_nat overlap))%nat
      by lia.
    replace (Z.to_nat (0 + Z.of_nat i * d + chunk_size - (0 + Z.of_nat i * d)))
      with (Z.to_nat chunk_size) by lia.
    apply firstn_skipn_shared; unfold len in *; lia.
Qed.

Lemma chunk_by_chars_count_and_overlap_witness :
  exists fuel chunks,
    (forall fuel', (fuel <= fuel')%nat ->
       chunk_by_chars fuel' (lit "abcdefghij") 4 1 = Some chunks) /\
    len chunks = ceil_div (len (lit "abcdefghij") - 1) (4 - 1) /\
    (forall i c, (S i < length chunks)%nat ->
       nth_error chunks i = Some c -> len c = 4) /\
    (forall i p c,
       nth_error chunks i = Some p -> nth_error chunks (S i) = Some c ->
       firstn (Z.to_nat 1) c = skipn (length p - Z.to_nat 1) p).
Proof.
  apply (chunk_by_chars_count_and_overlap (lit "abcdefghij") 4 1).
  - reflexivity.
  - split; [discriminate | reflexivity].
Defined.

(** C9.  For [chunk_size >= 1], [chunk_by_chars] returns exactly when the
    content is no longer than [chunk_size] or the overlap is below
    [chunk_size]; otherwise the window start stays at or below 0, before
    the end of the content, and no amount of fuel gives a result. *)
Theorem chunk_by_chars_returns_iff (content : str) (chunk_size overlap : Z) :
  1 <= chunk_size ->
  ((exists fuel chunks, chunk_by_chars fuel content chunk_size overlap = Some chunks)
   <-> (len content <= chunk_size \/ overlap < chunk_size)) /\
  (chunk_size <= overlap -> chunk_size < len content ->
   (forall n, Nat.iter n (next_start content chunk_size overlap) 0 < len content) /\
   (forall fuel, chunk_by_chars fuel content chunk_size overlap = None)).
Proof.
  intros Hcs. split; [split|].
  - intros [fuel [chunks H]].
    destruct (Z.le_gt_cases (len content) chunk_size) as [|HL]; [left; assumption|].
    destruct (Z.lt_ge_cases overlap chunk_size) as [|Ho]; [right; assumption|].
    unfold chunk_by_chars in H.
    rewrite loop_stuck in H by lia. discriminate.
  - intros [HL|Ho].
    + exists 1%nat. unfold chunk_by_chars.
      destruct (Z.eq_dec (len content) 0) as [H0|H0].
      * exists []. apply loop_exit. lia.
      * pose proof (len_nonneg content).
        exists ([] ++ [slice content 0 (Z.min (0 + chunk_size) (len content))]).
        rewrite loop_step by lia.
        rewrite Z.min_r by lia.
        rewrite Z.ltb_irrefl, andb_false_r.
        apply loop_exit. lia.
    + unfold chunk_by_chars.
      destruct (loop_returns content chunk_size overlap (Z.to_nat (len content)) 0 [])
        as [r Hr]; [lia | lia | lia | lia |].
      exists (Z.to_nat (len content)), r. exact Hr.
  - intros Ho HL. split.
    + intros n. pose proof (next_start_stuck content chunk_size overlap n Hcs Ho HL). lia.
    + intros fuel. unfold chunk_by_chars. apply loop_stuck; lia.
Qed.

Lemma chunk_by_chars_returns_iff_witness :
  ((exists fuel chunks, chunk_by_chars fuel (lit "abcdefgh") 3 5 = Some chunks)
   <-> (len (lit "abcdefgh") <= 3 \/ 5 < 3)) /\
  (3 <= 5 -> 3 < len (lit "abcdefgh") ->
   (forall n, Nat.iter n (next_start (lit "abcdefgh") 3 5) 0 < len (lit "abcdefgh")) /\
   (forall fuel, chunk_by_chars fuel (lit "abcdefgh") 3 5 = None)).
Proof.
  apply (chunk_by_chars_returns_iff (lit "abcdefgh") 3 5).
  discriminate.
Defined.


(** ** The end-to-end chunking scenario *)

Lemma chunk_by_chars_fuel_mono (fuel fuel' : nat) (content : str) (cs o : Z)
    (r : list str) :
  (fuel <= fuel')%nat ->
  chunk_by_chars fuel content cs o = Some r ->
  chunk_by_chars fuel' content cs o = Some r.
Proof. unfold chunk_by_chars. apply loop_fuel_mono. Qed.

Lemma auto_chunk_fuel_mono (fuel fuel' : nat) (content : str) (target : Z)
    (r : list str * strategy) :
  (fuel <= fuel')%nat ->
  auto_chunk fuel content target = Some r ->
  auto_chunk fuel' content target = Some r.
Proof.
  intros Hle. unfold auto_chunk.
  destruct (_ && _); [trivial|].
  destruct (if 10 <? _ then _ else _); [trivial|].
  destruct (_ && _); [trivial|].
  unfold chunk_by_chars.
  destruct (chunk_by_chars_loop fuel content target 500 0 []) as [chunks|] eqn:E;
    [|discriminate].
  rewrite (loop_fuel_mono content target 500 fuel fuel' 0 [] chunks Hle E).
  trivial.
Qed.

Lemma sizes_inv (r : list str * strategy) (l : list Z) (s : strategy) :
  sizes r = (l, s) -> map len (fst r) = l /\ snd r = s.
Proof. unfold sizes. intros H. split; congruence. Qed.

(** The scenario of the test [test_character_fallback]: 100,000 characters
    [a]. *)
Example auto_chunk_a_100k_run :
  option_map sizes (auto_chunk 3 a_100k 40000)
  = Some ([40000; 40000; 21000], character_count).
Proof. vm_compute. reflexivity. Qed.

Example chunk_by_chars_a_100k_run :
  option_map (map len) (chunk_by_chars 3 a_100k 40000 0)
  = Some [40000; 40000; 20000].
Proof. vm_compute. reflexivity. Qed.

(** ** Relevance filter *)

Lemma enumerate_from_In {A} (l : list A) (k i : nat) (c : A) :
  In (i, c) (enumerate_from k l) -> (k <= i)%nat /\ nth_error l (i - k) = Some c.
Proof.
  revert k. induction l as [|x l IH]; intros k H; simpl in H; [contradiction|].
  destruct H as [H|H].
  - injection H as <- <-. split; [lia|]. rewrite Nat.sub_diag. reflexivity.
  - apply IH in H. destruct H as [Hle Hnth]. split; [lia|].
    replace (i - k)%nat with (S (i - S k)) by lia. exact Hnth.
Qed.

Lemma enumerate_from_length {A} (l : list A) (k : nat) :
  length (enumerate_from k l) = length l.
Proof. revert k. induction l; intros; simpl; auto. Qed.

Lemma enumerate_from_sorted {A} (l : list A) (k : nat) :
  StronglySorted lt (map fst (enumerate_from k l)).
Proof.
  revert k. induction l as [|x l IH]; intros k; simpl; constructor.
  - apply IH.
  - apply Forall_forall. intros i Hi.
    apply in_map_iff in Hi. destruct Hi as [[j c] [<- Hin]].
    apply enumerate_from_In in Hin. simpl. lia.
Qed.

Lemma filter_fst_sorted {A} (p : nat * A -> bool) (l : list (nat * A)) :
  StronglySorted lt (map fst l) -> StronglySorted lt (map fst (filter p l)).
Proof.
  induction l as [|x l IH]; simpl; intros H; [constructor|].
  inversion H as [|? ? Hs Hall]; subst.
  destruct (p x); simpl; [constructor|]; auto.
  apply Forall_forall. intros i Hi.
  apply in_map_iff in Hi. destruct Hi as [y [<- Hy]].
  apply filter_In in Hy. destruct Hy as [Hy _].
  rewrite Forall_forall in Hall. apply Hall. apply in_map. exact Hy.
Qed.

(** The result is the enumeration of all chunks or the enumeration
    filtered by some test, and then it holds a tenth of the chunks or more. *)
Lemma filter_relevant_chunks_cases (chunks : list str) (query : str)
    (keywords : option (list str)) :
  filter_relevant_chunks chunks query keywords = enumerate chunks \/
  exists p,
    filter_relevant_chunks chunks query keywords = filter p (enumerate chunks) /\
    len chunks <= 10 * len (filter p (enumerate chunks)).
Proof.
  unfold filter_relevant_chunks.
  set (kws := match keywords with Some (kw :: kws) => kw :: kws | _ => _ end).
  destruct kws as [|kw kws]; [left; reflexivity|].
  set (p := fun ic : nat * str => search_any (kw :: kws) (snd ic)).
  destruct (Z.ltb_spec (10 * len (filter p (enumerate chunks))) (len chunks)).
  - left; reflexivity.
  - right. exists p. split; [reflexivity | lia].
Qed.

(** C5.  [filter_relevant_chunks] returns every chunk with its index, or a
    part of that enumeration that holds at least a tenth of the chunks; it
    never returns a non-empty proper part smaller than that. *)
Theorem filter_relevant_chunks_all_or_tenth (chunks : list str) (query : str)
    (keywords : option (list str)) :
  let r := filter_relevant_chunks chunks query keywords in
  (r = enumerate chunks \/
   ((forall ic, In ic r -> In ic (enumerate chunks)) /\ len chunks <= 10 * len r)) /\
  ~ (r <> [] /\ r <> enumerate chunks /\ 10 * len r < len chunks).
Proof.
  intros r. subst r.
  destruct (filter_relevant_chunks_cases chunks query keywords) as [H|[p [H Hlen]]];
    rewrite H.
  - split; [left; reflexivity|]. intros [_ [Hne _]]. apply Hne. reflexivity.
  - split.
    + right. split; [|exact Hlen].
      intros ic Hic. apply filter_In in Hic. tauto.
    + intros [_ [_ Hlt]]. lia.
Qed.

(** C6.  Every pair that [filter_relevant_chunks] returns holds a chunk and
    the position of that chunk in the input list, and the positions of the
    returned pairs increase strictly. *)
Theorem filter_relevant_chunks_original_indices (chunks : list str) (query : str)
    (keywords : option (list str)) :
  let r := filter_relevant_chunks chunks query keywords in
  (forall i c, In (i, c) r -> nth_error chunks i = Some c) /\
  StronglySorted lt (map fst r).
Proof.
  intros r. subst r.
  assert (Hall : forall i c, In (i, c) (enumerate chunks) -> nth_error chunks i = Some c).
  { intros i c Hin. apply enumerate_from_In in Hin.
    rewrite Nat.sub_0_r in Hin. tauto. }
  destruct (filter_relevant_chunks_cases chunks query keywords) as [H|[p [H _]]];
    rewrite H.
  - split; [exact Hall | apply enumerate_from_sorted].
  - split.
    + intros i c Hin. apply filter_In in Hin. apply Hall. tauto.
    + apply filter_fst_sorted, enumerate_from_sorted.
Qed.

(** ** Chunk processor *)

Lemma query_fn_run {World} (oracle : World -> model -> str -> Z -> reply * World)
    (fast_model : bool) (prompt : str) (max_tokens : Z) (s : state World) :
  query_fn oracle fast_model prompt max_tokens s =
    let s' := State (snd (oracle (world s) (model_of fast_model) prompt max_tokens))
                    (calls s ++ [Call (model_of fast_model) prompt max_tokens]) in
    match fst (oracle (world s) (model_of fast_model) prompt max_tokens) with
    | Reply text => Done text s'
    | Fails e => Raised e s'
    end.
Proof.
  unfold query_fn, llm_query_fast, llm_query, model_of.
  destruct fast_model;
    match goal with |- context [oracle ?w ?m ?p ?t] => destruct (oracle w m p t) as [r w'] end;
    reflexivity.
Qed.

Lemma process_chunk_run {World} (oracle : World -> model -> str -> Z -> reply * World)
    (chunk : str) (chunk_index total_chunks : Z) (query : str) (fast_model : bool)
    (s : state World) :
  let prompt := chunk_prompt chunk chunk_index total_chunks query in
  let m := model_of fast_model in
  process_chunk oracle chunk chunk_index total_chunks query fast_model s =
    Done (extraction_of (fst (oracle (world s) m prompt 2048)))
         (State (snd (oracle (world s) m prompt 2048)) (calls s ++ [Call m prompt 2048])).
Proof.
  intros prompt m. unfold process_chunk, try_except, bind.
  rewrite query_fn_run. fold prompt. fold m. cbv zeta.
  destruct (oracle (world s) m prompt 2048) as [[text|e] w']; simpl fst; simpl snd;
    unfold extraction_of.
  - destruct (contains NO_RELEVANT_INFO text); reflexivity.
  - reflexivity.
Qed.

(** C7.  [process_chunk] makes one oracle call and always returns: an
    oracle error gives the absent result and no exception leaves the
    function; a reply that contains NO_RELEVANT_INFO gives the absent
    result; any other reply gives the reply, stripped. *)
Theorem process_chunk_swallows_errors {World}
    (oracle : World -> model -> str -> Z -> reply * World)
    (chunk : str) (chunk_index total_chunks : Z) (query : str) (fast_model : bool)
    (s : state World) :
  let prompt := chunk_prompt chunk chunk_index total_chunks query in
  let m := if fast_model then FAST_MODEL else DEFAULT_MODEL in
  let s' := State (snd (oracle (world s) m prompt 2048)) (calls s ++ [Call m prompt 2048]) in
  process_chunk oracle chunk chunk_index total_chunks query fast_model s =
    Done (match fst (oracle (world s) m prompt 2048) with
          | Fails _ => None
          | Reply text =>
              if contains NO_RELEVANT_INFO text then None else Some (strip text)
          end) s'.
Proof.
  intros prompt m s'. apply process_chunk_run.
Qed.

(** ** Aggregator *)

Lemma aggregate_results_empty_run {World}
    (oracle : World -> model -> str -> Z -> reply * World)
    (fuel : nat) (query : str) (fast_model : bool) (s : state World) :
  aggregate_results oracle (S fuel) [] query fast_model s = Done no_information s.
Proof. reflexivity. Qed.

(** C8.  [aggregate_results] on the empty list returns the fixed answer
    [no_information]; the state, and with it the log of oracle calls, is the
    one it started in. *)
Theorem aggregate_results_empty {World}
    (oracle : World -> model -> str -> Z -> reply * World)
    (fuel : nat) (query : str) (fast_model : bool) (s : state World) :
  aggregate_results oracle (S fuel) [] query fast_model s = Done no_information s.
Proof. reflexivity. Qed.

Lemma aggregate_results_unfold {World}
    (oracle : World -> model -> str -> Z -> reply * World)
    (fuel : nat) (r : Z * str) (rest : list (Z * str)) (query : str)
    (fast_model : bool) (s : state World) :
  aggregate_results oracle (S fuel) (r :: rest) query fast_model s =
    bind
      (if 50000 <? len (combine_results (r :: rest)) then
         let mid := (length (r :: rest) / 2)%nat in
         bind (aggregate_results oracle fuel (firstn mid (r :: rest)) summarize_query fast_model)
              (fun left_agg =>
         bind (aggregate_results oracle fuel (skipn mid (r :: rest)) summarize_query fast_model)
              (fun right_agg =>
         ret (lit "Summary Part 1:" ++ nl ++ left_agg ++ nl ++ nl
              ++ lit "Summary Part 2:" ++ nl ++ right_agg)))
       else ret (combine_results (r :: rest)))
      (fun combined =>
         try_except
           (query_fn oracle fast_model (aggregation_prompt combined query) 4096)
           (fun e =>
              ret (lit "Error during aggregation: " ++ e ++ nl ++ nl
                   ++ lit "Raw findings:" ++ nl ++ slice combined 0 5000)))
      s.
Proof. reflexivity. Qed.

(** A single pair whose labeled text is above the threshold is split into
    the empty list and itself: the recursion never comes back. *)
Lemma aggregate_results_singleton_above {World}
    (oracle : World -> model -> str -> Z -> reply * World) (r : Z * str) :
  (50000 <? len (combine_results [r])) = true ->
  forall (fuel : nat) (query : str) (fast_model : bool) (s : state World),
    aggregate_results oracle fuel [r] query fast_model s = OutOfFuel.
Proof.
  intros Hbig fuel. induction fuel as [|fuel IH]; intros query fast_model s.
  - reflexivity.
  - rewrite aggregate_results_unfold. rewrite Hbig.
    change (length [r] / 2)%nat with 0%nat. cbv zeta.
    change (firstn 0 [r]) with (@nil (Z * str)).
    change (skipn 0 [r]) with [r].
    unfold bind at 1. unfold bind at 1.
    destruct fuel as [|fuel'].
    + reflexivity.
    + rewrite aggregate_results_empty_run.
      unfold bind at 1. rewrite IH. reflexivity.
Qed.

Lemma oversized_extraction_above :
  (50000 <? len (combine_results [(0, oversized_extraction)])) = true.
Proof. vm_compute. reflexivity. Qed.

(** C1.  The aggregator does not return on every input: for the list that
    holds the single pair [(0, oversized_extraction)], whose labeled text has
    50,012 characters, the first half of the split is empty and the second
    half is the list itself, so that for every query, every model hint, every
    oracle and every bound on the depth of the recursion the call does not
    come back. *)
Theorem aggregate_results_single_oversized_diverges {World}
    (oracle : World -> model -> str -> Z -> reply * World)
    (fuel : nat) (query : str) (fast_model : bool) (s : state World) :
  len (combine_results [(0, oversized_extraction)]) = 50012 /\
  firstn (length [(0, oversized_extraction)] / 2) [(0, oversized_extraction)] = [] /\
  skipn (length [(0, oversized_extraction)] / 2) [(0, oversized_extraction)]
    = [(0, oversized_extraction)] /\
  aggregate_results oracle fuel [(0, oversized_extraction)] query fast_model s = OutOfFuel.
Proof.
  split; [vm_compute; reflexivity|].
  split; [reflexivity|].
  split; [reflexivity|].
  apply aggregate_results_singleton_above. exact oversized_extraction_above.
Qed.

(** ** Top-level pipeline *)

(** The loop over the selected chunks returns, and it has called the oracle
    once for every selected chunk, in order, each chunk under its own
    index. *)
Lemma process_selected_run {World}
    (oracle : World -> model -> str -> Z -> reply * World)
    (indexed_chunks : list (nat * str)) (total_chunks : Z) (query : str)
    (fast_model : bool) :
  forall (acc : list (Z * str)) (s : state World),
  exists results s1,
    process_selected oracle indexed_chunks total_chunks query fast_model acc s
      = Done results s1 /\
    calls s1 = calls s ++ map (chunk_call total_chunks query fast_model) indexed_chunks.
Proof.
  induction indexed_chunks as [|[orig_idx chunk] rest IH]; intros acc s.
  - exists acc, s. split; [reflexivity|]. simpl. rewrite app_nil_r. reflexivity.
  - cbn [process_selected]. unfold bind at 1. rewrite process_chunk_run. cbv zeta.
    match goal with
    | |- context [process_selected oracle rest total_chunks query fast_model ?a ?t] =>
        destruct (IH a t) as [results [s1 [Hrun Hcalls]]]
    end.
    exists results, s1. split; [exact Hrun|].
    rewrite Hcalls. cbn [calls map]. rewrite <- app_assoc. reflexivity.
Qed.

(** C10.  [rlm_process] runs the chunk processor on the chunks that
    [select_chunks] gives, one oracle call for each in order, and hands the
    extractions to the aggregator.  The selection is the relevance filter
    only if the flag is set and there are more than 3 chunks; without the
    flag, or with 3 chunks or fewer, it is every chunk with its own index. *)
Theorem rlm_process_filters_only_above_three {World}
    (oracle : World -> model -> str -> Z -> reply * World)
    (fuel : nat) (content query : str) (chunk_size : Z)
    (fast_model filter_chunks : bool) (chunks : list str) (strat : strategy)
    (s : state World) :
  auto_chunk fuel content chunk_size = Some (chunks, strat) ->
  (exists results s1,
     process_selected oracle (select_chunks filter_chunks chunks query) (len chunks)
       query fast_model [] s = Done results s1 /\
     calls s1 = calls s ++ map (chunk_call (len chunks) query fast_model)
                               (select_chunks filter_chunks chunks query) /\
     rlm_process oracle fuel content query chunk_size fast_model filter_chunks s
       = aggregate_results oracle fuel results query fast_model s1) /\
  (filter_chunks = false \/ len chunks <= 3 ->
     select_chunks filter_chunks chunks query = enumerate chunks) /\
  (filter_chunks = true /\ 3 < len chunks ->
     select_chunks filter_chunks chunks query = filter_relevant_chunks chunks query None).
Proof.
  intros Hchunks. split; [|split].
  - destruct (process_selected_run oracle (select_chunks filter_chunks chunks query)
                (len chunks) query fast_model [] s) as [results [s1 [Hrun Hcalls]]].
    exists results, s1. split; [exact Hrun|]. split; [exact Hcalls|].
    unfold rlm_process. rewrite Hchunks. unfold bind. rewrite Hrun. reflexivity.
  - intros [Hflag|Hfew]; unfold select_chunks.
    + rewrite Hflag. reflexivity.
    + destruct (Z.ltb_spec 3 (len chunks)); [lia|].
      rewrite andb_false_r. reflexivity.
  - intros [Hflag Hmany]. unfold select_chunks. rewrite Hflag.
    destruct (Z.ltb_spec 3 (len chunks)); [reflexivity | lia].
Qed.

Lemma rlm_process_filters_only_above_three_witness :
  (exists results s1,
     process_selected (constant_oracle (lit "fine"))
       (select_chunks true [lit "abc"] (lit "query")) (len [lit "abc"])
       (lit "query") false [] (State tt []) = Done results s1 /\
     calls s1 = calls (State tt []) ++ map (chunk_call (len [lit "abc"]) (lit "query") false)
                               (select_chunks true [lit "abc"] (lit "query")) /\
     rlm_process (constant_oracle (lit "fine")) 2 (lit "abc") (lit "query") 40000
       false true (State tt [])
       = aggregate_results (constant_oracle (lit "fine")) 2 results (lit "query") false s1) /\
  (true = false \/ len [lit "abc"] <= 3 ->
     select_chunks true [lit "abc"] (lit "query") = enumerate [lit "abc"]) /\
  (true = true /\ 3 < len [lit "abc"] ->
     select_chunks true [lit "abc"] (lit "query")
       = filter_relevant_chunks [lit "abc"] (lit "query") None).
Proof.
  apply (rlm_process_filters_only_above_three (constant_oracle (lit "fine")) 2
           (lit "abc") (lit "query") 40000 false true [lit "abc"] character_count
           (State tt [])).
  vm_compute. reflexivity.
Defined.

(** ** Reconstruction of the content from its chunks *)

Lemma join_cons (sep p : str) (rest : list str) :
  rest <> [] -> join sep (p :: rest) = p ++ sep ++ join sep rest.
Proof. destruct rest; [congruence | reflexivity]. Qed.

Lemma join_app (sep : str) (l1 l2 : list str) :
  l1 <> [] -> l2 <> [] -> join sep (l1 ++ l2) = join sep l1 ++ sep ++ join sep l2.
Proof.
  intros H1 H2. induction l1 as [|p l1 IH]; [congruence|].
  destruct l1 as [|q l1].
  - simpl app. rewrite join_cons by assumption. reflexivity.
  - change ((p :: q :: l1) ++ l2) with (p :: (q :: l1) ++ l2).
    rewrite join_cons by discriminate.
    rewrite IH by discriminate.
    rewrite (join_cons sep p (q :: l1)) by discriminate.
    rewrite <- !app_assoc. reflexivity.
Qed.

Lemma starts_with_prefix (p s : str) :
  starts_with p s = true -> s = p ++ skipn (length p) s.
Proof.
  revert s. induction p as [|a p IH]; intros s H; [reflexivity|].
  destruct s as [|b s]; [discriminate|].
  simpl in H. apply andb_true_iff in H. destruct H as [Hab Hrest].
  apply Ascii.eqb_eq in Hab. subst b.
  simpl. f_equal. apply IH. exact Hrest.
Qed.

Lemma split_aux_nonempty (sep s : str) (skip : nat) (cur : str) :
  split_aux sep s skip cur <> [].
Proof.
  revert skip cur. induction s as [|c s IH]; intros skip cur; simpl; [discriminate|].
  destruct skip; [|apply IH].
  destruct (starts_with sep (c :: s)); [discriminate | apply IH].
Qed.

Lemma join_split_aux (sep : str) :
  sep <> [] ->
  forall (s : str) (skip : nat) (cur : str),
    join sep (split_aux sep s skip cur) = rev cur ++ skipn skip s.
Proof.
  intros Hsep. induction s as [|c s IH]; intros skip cur.
  - simpl. rewrite skipn_nil, app_nil_r. reflexivity.
  - cbn [split_aux]. destruct skip as [|k].
    + destruct (starts_with sep (c :: s)) eqn:Hst.
      * rewrite join_cons by apply split_aux_nonempty.
        rewrite IH. simpl rev. simpl app at 2.
        apply starts_with_prefix in Hst.
        destruct sep as [|a sep]; [congruence|].
        simpl in Hst. injection Hst as Hc Hs.
        replace (length (a :: sep) - 1)%nat with (length sep) by (simpl; lia).
        subst c. cbn [skipn]. rewrite <- app_comm_cons, <- Hs. reflexivity.
      * rewrite IH. simpl. rewrite <- app_assoc. reflexivity.
    + rewrite IH. reflexivity.
Qed.

(** Joining the parts of a split with the separator gives the string back. *)
Lemma join_split (sep s : str) : sep <> [] -> join sep (split sep s) = s.
Proof. intros H. unfold split. rewrite join_split_aux by assumption. reflexivity. Qed.

Lemma slice_nat {A} (l : list A) (i n : nat) :
  slice l (Z.of_nat i) (Z.of_nat (i + n)) = firstn n (skipn i l).
Proof.
  unfold slice, norm_index, len.
  destruct (Z.ltb_spec (Z.of_nat i) 0); [lia|].
  destruct (Z.ltb_spec (Z.of_nat (i + n)) 0); [lia|].
  destruct (Nat.le_gt_cases i (length l)) as [Hi|Hi].
  - rewrite (Z.min_l (Z.of_nat i)) by lia. rewrite Nat2Z.id.
    destruct (Nat.le_gt_cases (i + n) (length l)) as [Hn|Hn].
    + rewrite Z.min_l by lia. f_equal. lia.
    + rewrite Z.min_r by lia.
      rewrite !firstn_all2; [reflexivity | |]; rewrite length_skipn; lia.
  - rewrite !skipn_all2 by lia.
    rewrite !firstn_nil. reflexivity.
Qed.

Lemma range_step_cons (len n : nat) :
  (1 <= len)%nat -> (1 <= n)%nat ->
  range_step len n = O :: map (fun i => (n + i)%nat) (range_step (len - n) n).
Proof.
  intros Hlen Hn. unfold range_step.
  assert (Hk : ((len + n - 1) / n = S ((len - n + n - 1) / n))%nat).
  { replace (len + n - 1)%nat with (len - 1 + 1 * n)%nat by lia.
    rewrite Nat.div_add by lia.
    destruct (Nat.le_gt_cases n len).
    - replace (len - n + n - 1)%nat with (len - 1)%nat by lia. lia.
    - rewrite !Nat.div_small by lia. reflexivity. }
  rewrite Hk. cbn [seq map]. f_equal.
  rewrite <- seq_shift, !map_map. apply map_ext. intros k. lia.
Qed.

Lemma line_groups_cons (n : nat) (l : list str) :
  l <> [] -> (1 <= n)%nat ->
  line_groups n l = firstn n l :: line_groups n (skipn n l).
Proof.
  intros Hl Hn. unfold line_groups.
  rewrite range_step_cons; [| destruct l; [congruence | simpl; lia] | assumption].
  cbn [map]. rewrite skipn_O. f_equal.
  rewrite length_skipn, map_map. apply map_ext. intros i.
  rewrite Nat.add_comm, skipn_skipn. reflexivity.
Qed.

Lemma line_groups_nil (n : nat) : (1 <= n)%nat -> line_groups n [] = [].
Proof.
  intros Hn. unfold line_groups, range_step. simpl length.
  rewrite Nat.div_small by lia. reflexivity.
Qed.

Lemma join_line_groups (sep : str) (n : nat) :
  (1 <= n)%nat ->
  forall (k : nat) (l : list str), (length l <= k)%nat ->
    join sep (map (join sep) (line_groups n l)) = join sep l.
Proof.
  intros Hn. induction k as [|k IH]; intros l Hk.
  - destruct l; [|simpl in Hk; lia]. rewrite line_groups_nil by assumption. reflexivity.
  - destruct l as [|x l]; [rewrite line_groups_nil by assumption; reflexivity|].
    rewrite line_groups_cons by (assumption || discriminate).
    cbn [map].
    destruct (skipn n (x :: l)) as [|y rest] eqn:Hrest.
    + rewrite line_groups_nil by assumption. cbn [map join].
      rewrite firstn_all2; [reflexivity|].
      apply (f_equal (@length str)) in Hrest. rewrite length_skipn in Hrest.
      cbn [length] in Hrest |- *. lia.
    + assert (Hlen : (length (y :: rest) <= k)%nat).
      { rewrite <- Hrest, length_skipn. cbn [length] in Hk |- *. lia. }
      rewrite join_cons.
      * rewrite (IH (y :: rest) Hlen).
        transitivity (join sep (firstn n (x :: l) ++ skipn n (x :: l)));
          [| rewrite firstn_skipn; reflexivity].
        rewrite Hrest. rewrite join_app; [reflexivity | | discriminate].
        destruct n; [lia | discriminate].
      * rewrite line_groups_cons by (assumption || discriminate). discriminate.
Qed.

Lemma chunk_by_lines_groups (content : str) (n : nat) :
  chunk_by_lines content n = map (join nl) (line_groups n (split nl content)).
Proof.
  unfold chunk_by_lines, line_groups. rewrite map_map.
  apply map_ext. intros i. rewrite slice_nat. reflexivity.
Qed.

Lemma chunk_by_lines_join (content : str) (n : nat) :
  (1 <= n)%nat -> join nl (chunk_by_lines content n) = content.
Proof.
  intros Hn. rewrite chunk_by_lines_groups.
  rewrite (join_line_groups nl n Hn (length (split nl content))) by lia.
  apply join_split. discriminate.
Qed.

Lemma chunk_by_chars_concat (content : str) (cs o : Z) :
  0 <= o < cs ->
  exists fuel chunks,
    chunk_by_chars fuel content cs o = Some chunks /\
    concat (drop_overlap o chunks) = content.
Proof.
  intros Ho.
  destruct (Z.ltb_spec cs (len content)) as [Hlong|Hshort].
  - exists (windows_from content cs o 0),
           (windows content cs (cs - o) (windows_from content cs o 0) 0).
    split.
    + unfold chunk_by_chars.
      rewrite (loop_windows content cs o Ho _ 0 []); [reflexivity | lia | lia | lia].
    + rewrite (windows_from_step content cs o 0) by lia.
      cbn [windows drop_overlap concat].
      rewrite (windows_concat content cs o _ (0 + (cs - o))); [| lia | lia | lia | reflexivity].
      rewrite Z.min_l by lia. rewrite slice_in_range by lia.
      replace (Z.to_nat (0 + (cs - o) + o)) with (Z.to_nat (0 + cs - 0)) by lia.
      simpl skipn at 1. apply firstn_skipn.
  - destruct content as [|c content].
    + exists O, []. split; reflexivity.
    + exists 1%nat, [c :: content]. split.
      * unfold chunk_by_chars. rewrite loop_step by (unfold len; simpl; lia).
        rewrite Z.min_r by lia.
        rewrite Z.ltb_irrefl, andb_false_r.
        rewrite loop_exit by lia.
        rewrite slice_all. reflexivity.
      * simpl. rewrite app_nil_r. reflexivity.
Qed.




(** ** More on the chunkers *)

(** Every run of [chunk_by_chars] that returns gives [char_chunks]. *)
Lemma chunk_by_chars_closed_form (content : str) (cs o : Z) :
  0 <= o < cs ->
  (exists fuel, chunk_by_chars fuel content cs o = Some (char_chunks content cs o)) /\
  (forall fuel chunks,
     chunk_by_chars fuel content cs o = Some chunks -> chunks = char_chunks content cs o).
Proof.
  intros Ho.
  assert (Hex : exists fuel, chunk_by_chars fuel content cs o = Some (char_chunks content cs o)).
  { unfold char_chunks. destruct (Z.ltb_spec cs (len content)) as [Hlong|Hshort].
    - exists (windows_from content cs o 0). unfold chunk_by_chars.
      rewrite (loop_windows content cs o Ho _ 0 []); [reflexivity | lia | lia | lia].
    - destruct content as [|c content].
      + exists O. reflexivity.
      + exists 1%nat. unfold chunk_by_chars.
        rewrite loop_step by (unfold len; simpl; lia).
        rewrite Z.min_r by lia.
        rewrite Z.ltb_irrefl, andb_false_r.
        rewrite loop_exit by lia.
        rewrite slice_all. reflexivity. }
  split; [exact Hex|].
  intros fuel chunks Hrun. destruct Hex as [fuel0 Hrun0].
  apply (chunk_by_chars_fuel_mono fuel (Nat.max fuel fuel0)) in Hrun; [|lia].
  apply (chunk_by_chars_fuel_mono fuel0 (Nat.max fuel fuel0)) in Hrun0; [|lia].
  congruence.
Qed.

(** A content that fits into one chunk is returned as the one chunk,
    whatever the overlap is; the empty content gives no chunk. *)
Theorem chunk_by_chars_content_fits (content : str) (chunk_size overlap : Z) (fuel : nat) :
  len content <= chunk_size ->
  chunk_by_chars (S fuel) content chunk_size overlap =
    Some (match content with [] => [] | _ => [content] end).
Proof.
  intros Hfit. unfold chunk_by_chars. destruct content as [|c content].
  - reflexivity.
  - rewrite loop_step by (unfold len; simpl; lia).
    rewrite Z.min_r by lia.
    rewrite Z.ltb_irrefl, andb_false_r.
    rewrite loop_exit by lia.
    rewrite slice_all. reflexivity.
Qed.

Lemma chunk_by_chars_content_fits_witness :
  chunk_by_chars 1 (lit "Hello world") 100 500 =
    Some (match lit "Hello world" with [] => [] | _ => [lit "Hello world"] end).
Proof.
  apply (chunk_by_chars_content_fits (lit "Hello world") 100 500 0).
  vm_compute. discriminate.
Defined.

Lemma windows_sizes (content : str) (cs o : Z) (c : str) :
  0 <= o < cs -> cs < len content ->
  In c (windows content cs (cs - o) (windows_from content cs o 0) 0) ->
  1 <= len c <= cs.
Proof.
  intros Ho Hlong Hin.
  apply In_nth_error in Hin. destruct Hin as [i Hi].
  assert (Hlt : (i < windows_from content cs o 0)%nat).
  { rewrite <- (windows_length content cs (cs - o) (windows_from content cs o 0) 0).
    apply nth_error_Some. congruence. }
  rewrite windows_nth in Hi by assumption. apply some_eq in Hi. subst c.
  remember (cs - o) as d eqn:Ed.
  pose proof (ceil_div_pos (len content - 0 - o) d ltac:(lia) ltac:(lia)) as Hpos.
  pose proof (ceil_div_lower (len content - 0 - o) d ltac:(lia)) as Hlow.
  unfold windows_from in Hlt. rewrite <- Ed in Hlt.
  assert (Z.of_nat i * d < len content - o) by nia.
  assert (0 <= Z.of_nat i * d) by nia.
  rewrite len_slice by lia. lia.
Qed.

(** With [0 <= overlap < chunk_size] no chunk of [chunk_by_chars] is empty
    and none is longer than [chunk_size]. *)
Theorem chunk_by_chars_chunk_sizes (content : str) (chunk_size overlap : Z)
    (fuel : nat) (chunks : list str) :
  0 <= overlap < chunk_size ->
  chunk_by_chars fuel content chunk_size overlap = Some chunks ->
  Forall (fun c => 1 <= len c <= chunk_size) chunks.
Proof.
  intros Ho Hrun.
  apply (proj2 (chunk_by_chars_closed_form content chunk_size overlap Ho)) in Hrun.
  subst chunks. unfold char_chunks.
  destruct (Z.ltb_spec chunk_size (len content)) as [Hlong|Hshort].
  - apply Forall_forall. intros c Hin.
    apply (windows_sizes content chunk_size overlap c Ho Hlong Hin).
  - destruct content as [|c content]; constructor; [|constructor].
    unfold len in *. simpl length in *. lia.
Qed.

Lemma chunk_by_chars_chunk_sizes_witness :
  Forall (fun c => 1 <= len c <= 4) [lit "abcd"; lit "defg"; lit "ghij"].
Proof.
  apply (chunk_by_chars_chunk_sizes (lit "abcdefghij") 4 1 3 [lit "abcd"; lit "defg"; lit "ghij"]).
  - lia.
  - reflexivity.
Defined.

Lemma split_nl_length (s cur : str) :
  length (split_aux nl s 0 cur) = S (length (filter is_nl s)).
Proof.
  revert cur. induction s as [|c s IH]; intros cur; [reflexivity|].
  cbn [split_aux filter].
  change (starts_with nl (c :: s)) with (Ascii.eqb "010" c && true).
  change (is_nl c) with (Ascii.eqb "010" c).
  rewrite andb_true_r.
  destruct (Ascii.eqb "010" c); cbn [length]; rewrite IH; reflexivity.
Qed.

Lemma range_step_length (stop step : nat) :
  length (range_step stop step) = ((stop + step - 1) / step)%nat.
Proof. unfold range_step. rewrite length_map, length_seq. reflexivity. Qed.

(** [chunk_by_lines] returns [ceil(lines / lines_per_chunk)] chunks, where
    the number of lines is one more than the number of newlines; it never
    returns the empty list, and a content of fewer than [lines_per_chunk]
    newlines is returned as the one chunk. *)
Theorem chunk_by_lines_count (content : str) (lines_per_chunk : nat) :
  (1 <= lines_per_chunk)%nat ->
  len (chunk_by_lines content lines_per_chunk)
    = ceil_div (count_nl content + 1) (Z.of_nat lines_per_chunk) /\
  chunk_by_lines content lines_per_chunk <> [] /\
  (count_nl content < Z.of_nat lines_per_chunk ->
   chunk_by_lines content lines_per_chunk = [content]).
Proof.
  intros Hn.
  assert (Hlen : len (chunk_by_lines content lines_per_chunk)
                 = ceil_div (count_nl content + 1) (Z.of_nat lines_per_chunk)).
  { unfold chunk_by_lines, len at 1. rewrite length_map, range_step_length.
    unfold split. rewrite split_nl_length.
    unfold ceil_div, count_nl, len.
    rewrite Nat2Z.inj_div. f_equal. lia. }
  pose proof (len_nonneg (filter is_nl content)) as Hnl. fold (count_nl content) in Hnl.
  split; [exact Hlen|]. split.
  - intros Hnil. rewrite Hnil in Hlen.
    pose proof (ceil_div_pos (count_nl content + 1) (Z.of_nat lines_per_chunk)
                  ltac:(lia) ltac:(lia)).
    change (len (@nil str)) with 0 in Hlen. lia.
  - intros Hfew.
    rewrite ceil_div_one in Hlen by lia.
    pose proof (chunk_by_lines_join content lines_per_chunk Hn) as Hjoin.
    destruct (chunk_by_lines content lines_per_chunk) as [|c [|c' rest]].
    + discriminate Hlen.
    + simpl in Hjoin. congruence.
    + unfold len in Hlen. simpl length in Hlen. lia.
Qed.

Lemma chunk_by_lines_count_witness :
  len (chunk_by_lines (lit "line1" ++ nl ++ lit "line2" ++ nl ++ lit "line3") 2)
    = ceil_div (count_nl (lit "line1" ++ nl ++ lit "line2" ++ nl ++ lit "line3") + 1)
               (Z.of_nat 2) /\
  chunk_by_lines (lit "line1" ++ nl ++ lit "line2" ++ nl ++ lit "line3") 2 <> [] /\
  (count_nl (lit "line1" ++ nl ++ lit "line2" ++ nl ++ lit "line3") < Z.of_nat 2 ->
   chunk_by_lines (lit "line1" ++ nl ++ lit "line2" ++ nl ++ lit "line3") 2
     = [lit "line1" ++ nl ++ lit "line2" ++ nl ++ lit "line3"]).
Proof.
  apply (chunk_by_lines_count (lit "line1" ++ nl ++ lit "line2" ++ nl ++ lit "line3") 2).
  lia.
Defined.

Lemma lstrip_idem (s : str) : lstrip (lstrip s) = lstrip s.
Proof.
  induction s as [|c s IH]; [reflexivity|].
  simpl. destruct (is_space c) eqn:Hc; [exact IH|].
  simpl. rewrite Hc. reflexivity.
Qed.

Lemma lstrip_head (s : str) (c : ascii) (t : str) :
  lstrip s = c :: t -> is_space c = false.
Proof.
  induction s as [|a s IH]; simpl; [discriminate|].
  destruct (is_space a) eqn:Ha; [exact IH|].
  intros H. injection H as <- _. exact Ha.
Qed.

Lemma lstrip_snoc (u : str) (h : ascii) :
  is_space h = false -> exists v, lstrip (u ++ [h]) = v ++ [h].
Proof.
  intros Hh. induction u as [|a u IH]; simpl.
  - rewrite Hh. exists []. reflexivity.
  - destruct (is_space a); [exact IH|]. exists (a :: u). reflexivity.
Qed.

(** [strip] leaves no whitespace at either end. *)
Lemma strip_stripped (s : str) : stripped (strip s).
Proof.
  unfold stripped, strip. split.
  - destruct (lstrip s) as [|h t] eqn:Ht; [reflexivity|].
    apply lstrip_head in Ht.
    cbn [rev]. destruct (lstrip_snoc (rev t) h Ht) as [v Hv].
    rewrite Hv, rev_unit. simpl. rewrite Ht. reflexivity.
  - rewrite rev_involutive. apply lstrip_idem.
Qed.

Lemma strip_fixed (s : str) : stripped s -> strip s = s.
Proof.
  intros [H1 H2]. unfold strip. rewrite H1, H2. apply rev_involutive.
Qed.

Lemma stripped_chunks (parts : list str) (c : str) :
  In c (map strip (filter nonblank parts)) ->
  c <> [] /\ strip c = c /\ exists part, In part parts /\ c = strip part.
Proof.
  intros Hin. apply in_map_iff in Hin. destruct Hin as [part [<- Hpart]].
  apply filter_In in Hpart. destruct Hpart as [Hpart Hnb].
  split; [|split].
  - unfold nonblank in Hnb. destruct (strip part); [discriminate Hnb | discriminate].
  - apply strip_fixed, strip_stripped.
  - exists part. split; [assumption | reflexivity].
Qed.

(** Every chunk of [chunk_by_separator] and of [chunk_by_regex] is one of
    the parts of the split, stripped: it is not empty and it has no
    whitespace at either end; there are no more chunks than parts. *)
Theorem separator_chunks_stripped (content separator : str)
    (re_split : str -> list str) :
  (forall c, In c (chunk_by_separator content separator) ->
     c <> [] /\ strip c = c /\
     exists part, In part (split separator content) /\ c = strip part) /\
  (forall c, In c (chunk_by_regex re_split content) ->
     c <> [] /\ strip c = c /\
     exists part, In part (re_split content) /\ c = strip part) /\
  len (chunk_by_separator content separator) <= len (split separator content) /\
  len (chunk_by_regex re_split content) <= len (re_split content).
Proof.
  split; [|split; [|split]].
  - intros c. apply stripped_chunks.
  - intros c. apply stripped_chunks.
  - unfold chunk_by_separator, len. rewrite length_map.
    pose proof (filter_length_le nonblank (split separator content)). lia.
  - unfold chunk_by_regex, len. rewrite length_map.
    pose proof (filter_length_le nonblank (re_split content)). lia.
Qed.

Lemma split_absent (sep s : str) :
  contains sep s = false -> forall cur, split_aux sep s 0 cur = [rev cur ++ s].
Proof.
  induction s as [|c s IH]; intros Hc cur.
  - simpl. rewrite app_nil_r. reflexivity.
  - cbn [contains] in Hc. apply orb_false_iff in Hc. destruct Hc as [Hst Hrest].
    cbn [split_aux]. rewrite Hst. rewrite IH by assumption.
    simpl. rewrite <- app_assoc. reflexivity.
Qed.

Lemma chunk_by_separator_absent_run (content separator : str) :
  contains separator content = false ->
  chunk_by_separator content separator =
    if nonblank content then [strip content] else [].
Proof.
  intros Habs. unfold chunk_by_separator, split.
  rewrite split_absent by assumption. simpl.
  destruct (nonblank content); reflexivity.
Qed.

(** A content in which the separator does not occur is returned as the one
    chunk, stripped; a blank content gives no chunk. *)
Theorem chunk_by_separator_absent (content separator : str) :
  contains separator content = false ->
  chunk_by_separator content separator =
    if nonblank content then [strip content] else [].
Proof. apply chunk_by_separator_absent_run. Qed.

Lemma chunk_by_separator_absent_witness :
  chunk_by_separator (lit " no separator here ") (nl ++ lit "---") =
    if nonblank (lit " no separator here ") then [strip (lit " no separator here ")] else [].
Proof.
  apply (chunk_by_separator_absent (lit " no separator here ") (nl ++ lit "---")).
  reflexivity.
Defined.

(** ** Strategy selection *)

Lemma count_nl_cons (c : ascii) (s : str) :
  count_nl (c :: s) = (if is_nl c then 1 else 0) + count_nl s.
Proof.
  unfold count_nl, len. cbn [filter]. destruct (is_nl c); cbn [length]; lia.
Qed.

Lemma count_nl_nonneg (s : str) : 0 <= count_nl s.
Proof. apply len_nonneg. Qed.

Lemma doc_sep_at_nl (c : ascii) (s : str) (n : nat) :
  doc_sep_at (c :: s) = Some n -> is_nl c = true.
Proof. simpl. destruct (is_nl c); [reflexivity | discriminate]. Qed.

(** Every document separator starts at a newline of its own. *)
Lemma doc_seps_le_newlines (s : str) (skip : nat) :
  count_matches doc_sep_at s skip <= count_nl s.
Proof.
  revert skip. induction s as [|c s IH]; intros skip.
  - simpl. apply count_nl_nonneg.
  - rewrite count_nl_cons. cbn [count_matches]. destruct skip as [|k].
    + destruct (doc_sep_at (c :: s)) as [n|] eqn:Hm.
      * apply doc_sep_at_nl in Hm. rewrite Hm. specialize (IH (n - 1)%nat). lia.
      * specialize (IH O). destruct (is_nl c); lia.
    + specialize (IH k). destruct (is_nl c); lia.
Qed.

(** Every header starts at the beginning of a line. *)
Lemma md_headers_le_lines (s : str) (bol : bool) (skip : nat) :
  count_md_headers s bol skip <= (if bol then 1 else 0) + count_nl s.
Proof.
  revert bol skip. induction s as [|c s IH]; intros bol skip.
  - simpl. pose proof (count_nl_nonneg []). destruct bol; lia.
  - rewrite count_nl_cons. cbn [count_md_headers]. destruct skip as [|k].
    + destruct (if bol then header_at (c :: s) else None) as [n|] eqn:Hm.
      * destruct bol; [|discriminate Hm].
        specialize (IH (is_nl c) (n - 1)%nat). destruct (is_nl c); lia.
      * specialize (IH (is_nl c) O). destruct (is_nl c), bol; lia.
    + specialize (IH (is_nl c) k). destruct (is_nl c), bol; lia.
Qed.

Lemma auto_chunk_few_lines (fuel : nat) (content : str) (target : Z) :
  count_nl content <= 5 ->
  auto_chunk fuel content target =
    option_map (fun chunks => (chunks, character_count))
               (chunk_by_chars fuel content target 500).
Proof.
  intros Hfew. unfold auto_chunk.
  pose proof (doc_seps_le_newlines content 0) as Hd.
  pose proof (md_headers_le_lines content true 0) as Hm. cbv iota in Hm.
  destruct (Z.ltb_spec 5 (count_matches doc_sep_at content 0)); [lia|].
  destruct (Z.ltb_spec 10 (count_md_headers content true 0)); [lia|].
  destruct (Z.ltb_spec 100 (count_nl content)); [lia|].
  reflexivity.
Qed.

(** A content of at most 5 newlines has too little structure for the other
    strategies: [auto_chunk] chunks it by characters, with the default
    overlap of 500 characters of [chunk_by_chars]. *)
Theorem auto_chunk_unstructured (fuel : nat) (content : str) (target_chunk_size : Z) :
  count_nl content <= 5 ->
  auto_chunk fuel content target_chunk_size =
    option_map (fun chunks => (chunks, character_count))
               (chunk_by_chars fuel content target_chunk_size 500).
Proof. apply auto_chunk_few_lines. Qed.

Lemma auto_chunk_unstructured_witness :
  auto_chunk 1 (lit "some content here") 40000 =
    option_map (fun chunks => (chunks, character_count))
               (chunk_by_chars 1 (lit "some content here") 40000 500).
Proof.
  apply (auto_chunk_unstructured 1 (lit "some content here") 40000).
  vm_compute. discriminate.
Defined.

(** With a target chunk size of 500 characters or less, [auto_chunk] does
    not return on an unstructured content that is longer than one chunk: the
    default overlap of [chunk_by_chars] is then not below the chunk size and
    the window never advances. *)
Theorem auto_chunk_small_target_diverges (content : str) (target_chunk_size : Z) :
  count_nl content <= 5 ->
  1 <= target_chunk_size <= 500 ->
  target_chunk_size < len content ->
  forall fuel, auto_chunk fuel content target_chunk_size = None.
Proof.
  intros Hfew Ht Hlong fuel.
  rewrite auto_chunk_few_lines by assumption.
  unfold chunk_by_chars. rewrite loop_stuck by lia. reflexivity.
Qed.

Lemma auto_chunk_small_target_diverges_witness :
  3 < len (lit "abcdefgh") /\
  forall fuel, auto_chunk fuel (lit "abcdefgh") 3 = None.
Proof.
  split; [vm_compute; reflexivity|].
  apply (auto_chunk_small_target_diverges (lit "abcdefgh") 3).
  - vm_compute. discriminate.
  - lia.
  - vm_compute. reflexivity.
Defined.

(** ** More on the relevance filter *)

Lemma filter_relevant_chunks_unfold (chunks : list str) (query : str)
    (keywords : option (list str)) :
  filter_relevant_chunks chunks query keywords =
    let kws := effective_keywords query keywords in
    match kws with
    | [] => enumerate chunks
    | _ =>
        let relevant := filter (fun ic => search_any kws (snd ic)) (enumerate chunks) in
        if 10 * len relevant <? len chunks then enumerate chunks else relevant
    end.
Proof.
  unfold filter_relevant_chunks, effective_keywords.
  destruct keywords as [[|kw kws]|]; reflexivity.
Qed.

Lemma enumerate_from_nth {A} (l : list A) (k i : nat) (c : A) :
  nth_error l i = Some c -> In ((k + i)%nat, c) (enumerate_from k l).
Proof.
  revert k i. induction l as [|x l IH]; intros k i H.
  - destruct i; discriminate H.
  - destruct i as [|i]; simpl in H |- *.
    + injection H as <-. left. f_equal. lia.
    + right. replace (k + S i)%nat with (S k + i)%nat by lia. apply IH. exact H.
Qed.

Lemma filter_none {A} (p : A -> bool) (l : list A) :
  (forall x, In x l -> p x = false) -> filter p l = [].
Proof.
  induction l as [|x l IH]; intros H; [reflexivity|].
  simpl. rewrite (H x) by (left; reflexivity).
  apply IH. intros y Hy. apply H. right. exact Hy.
Qed.

(** When no chunk matches a keyword the filter returns every chunk. *)
Theorem filter_relevant_chunks_no_match (chunks : list str) (query : str)
    (keywords : option (list str)) :
  (forall c, In c chunks -> search_any (effective_keywords query keywords) c = false) ->
  filter_relevant_chunks chunks query keywords = enumerate chunks.
Proof.
  intros Hnone. rewrite filter_relevant_chunks_unfold. cbv zeta.
  destruct (effective_keywords query keywords) as [|kw kws]; [reflexivity|].
  rewrite filter_none.
  - destruct chunks as [|c chunks]; [reflexivity|].
    destruct (Z.ltb_spec (10 * len (@nil (nat * str))) (len (c :: chunks))) as [_|H];
      [reflexivity|].
    unfold len in H. simpl length in H. lia.
  - intros [i c] Hin. apply enumerate_from_In in Hin. destruct Hin as [_ Hin].
    apply nth_error_In in Hin. apply Hnone. exact Hin.
Qed.

Lemma filter_relevant_chunks_no_match_witness :
  filter_relevant_chunks [lit "chunk 1 with unrelated content"; lit "chunk 2"]
    (lit "xylophone quantum") None
  = enumerate [lit "chunk 1 with unrelated content"; lit "chunk 2"].
Proof.
  apply (filter_relevant_chunks_no_match
           [lit "chunk 1 with unrelated content"; lit "chunk 2"]
           (lit "xylophone quantum") None).
  intros c [<-|[<-|[]]]; vm_compute; reflexivity.
Defined.

(** The filter never empties a non-empty list of chunks. *)
Theorem filter_relevant_chunks_nonempty (chunks : list str) (query : str)
    (keywords : option (list str)) :
  chunks <> [] -> filter_relevant_chunks chunks query keywords <> [].
Proof.
  intros Hne.
  assert (Hpos : 1 <= len chunks).
  { destruct chunks; [congruence|]. unfold len. simpl length. lia. }
  destruct (filter_relevant_chunks_cases chunks query keywords) as [H|[p [H Hlen]]];
    rewrite H; intros Hnil.
  - destruct chunks; [congruence | discriminate Hnil].
  - rewrite Hnil in Hlen. change (len (@nil (nat * str))) with 0 in Hlen. lia.
Qed.

Lemma filter_relevant_chunks_nonempty_witness :
  [lit "cooking recipes"] <> [] /\
  filter_relevant_chunks [lit "cooking recipes"] (lit "security issues") None <> [].
Proof.
  split; [discriminate|].
  apply (filter_relevant_chunks_nonempty [lit "cooking recipes"] (lit "security issues") None).
  discriminate.
Defined.

Lemma word_runs_length (s cur w : str) :
  In w (word_runs s cur) -> (length w <= length s + length cur)%nat.
Proof.
  revert cur. induction s as [|c s IH]; intros cur Hin.
  - simpl in Hin. destruct cur as [|a cur]; [contradiction|].
    destruct Hin as [<-|[]]. rewrite length_rev. simpl. lia.
  - cbn [word_runs] in Hin. destruct (is_word c).
    + apply IH in Hin. cbn [length] in *. lia.
    + destruct cur as [|a cur].
      * apply IH in Hin. cbn [length] in *. lia.
      * destruct Hin as [<-|Hin].
        -- rewrite length_rev. cbn [length]. lia.
        -- apply IH in Hin. cbn [length] in *. lia.
Qed.

(** A query of fewer than 4 characters has no keyword: without an explicit
    keyword list every chunk is returned. *)
Theorem filter_relevant_chunks_short_query (chunks : list str) (query : str) :
  len query < 4 ->
  filter_relevant_chunks chunks query None = enumerate chunks.
Proof.
  intros Hshort. rewrite filter_relevant_chunks_unfold. cbv zeta.
  assert (Hnone : effective_keywords query None = []).
  { unfold effective_keywords, words4. rewrite (filter_none _ (word_runs _ _)); [reflexivity|].
    intros w Hw. apply word_runs_length in Hw.
    unfold lower in Hw. rewrite length_map in Hw. unfold len in Hshort.
    simpl length in Hw. apply Nat.leb_gt. lia. }
  rewrite Hnone. reflexivity.
Qed.

Lemma filter_relevant_chunks_short_query_witness :
  filter_relevant_chunks [lit "chunk 1"; lit "chunk 2"; lit "chunk 3"] (lit "hi") None
  = enumerate [lit "chunk 1"; lit "chunk 2"; lit "chunk 3"].
Proof.
  apply (filter_relevant_chunks_short_query
           [lit "chunk 1"; lit "chunk 2"; lit "chunk 3"] (lit "hi")).
  vm_compute. reflexivity.
Defined.

(** When a tenth of the chunks or more match a keyword, the filter returns
    exactly the matching chunks: a pair [(i, c)] is returned if and only if
    [c] is the chunk at position [i] and it matches. *)
Theorem filter_relevant_chunks_keeps_matches (chunks : list str) (query : str)
    (keywords : option (list str)) (kw : str) (kws : list str) :
  effective_keywords query keywords = kw :: kws ->
  len chunks <= 10 * len (filter (fun ic => search_any (kw :: kws) (snd ic))
                                 (enumerate chunks)) ->
  forall i c,
    In (i, c) (filter_relevant_chunks chunks query keywords) <->
    nth_error chunks i = Some c /\ search_any (kw :: kws) c = true.
Proof.
  intros Hkw Hmany i c. rewrite filter_relevant_chunks_unfold, Hkw. cbv zeta.
  destruct (Z.ltb_spec
              (10 * len (filter (fun ic => search_any (kw :: kws) (snd ic))
                                (enumerate chunks)))
              (len chunks)) as [Hlt|_]; [lia|].
  rewrite filter_In. cbn [snd]. split.
  - intros [Hin Hm]. apply enumerate_from_In in Hin.
    rewrite Nat.sub_0_r in Hin. tauto.
  - intros [Hnth Hm]. split; [|exact Hm].
    apply (enumerate_from_nth chunks 0 i c Hnth).
Qed.

Lemma filter_relevant_chunks_keeps_matches_witness :
  effective_keywords [] (Some [lit "keyword"]) = [lit "keyword"] /\
  forall i c,
    In (i, c) (filter_relevant_chunks
                 [lit "a"; lit "match keyword here"; lit "b"; lit "another keyword match"]
                 [] (Some [lit "keyword"])) <->
    nth_error [lit "a"; lit "match keyword here"; lit "b"; lit "another keyword match"] i
      = Some c /\ search_any [lit "keyword"] c = true.
Proof.
  split; [reflexivity|].
  apply (filter_relevant_chunks_keeps_matches
           [lit "a"; lit "match keyword here"; lit "b"; lit "another keyword match"]
           [] (Some [lit "keyword"]) (lit "keyword") []).
  - reflexivity.
  - vm_compute. discriminate.
Defined.

(** ** More on the aggregator *)

(** The one synthesis call of the aggregator: its failure is turned into
    the degraded answer. *)
Lemma synthesis_run {World} (oracle : World -> model -> str -> Z -> reply * World)
    (combined query : str) (fast_model : bool) (s : state World) :
  try_except
    (query_fn oracle fast_model (aggregation_prompt combined query) 4096)
    (fun e =>
       ret (lit "Error during aggregation: " ++ e ++ nl ++ nl
            ++ lit "Raw findings:" ++ nl ++ slice combined 0 5000))
    s =
  Done (answer_of (fst (oracle (world s) (model_of fast_model)
                          (aggregation_prompt combined query) 4096)) combined)
       (State (snd (oracle (world s) (model_of fast_model)
                      (aggregation_prompt combined query) 4096))
              (calls s ++ [Call (model_of fast_model)
                             (aggregation_prompt combined query) 4096])).
Proof.
  unfold try_except. rewrite query_fn_run. cbv zeta.
  destruct (oracle (world s) (model_of fast_model) (aggregation_prompt combined query) 4096)
    as [[text|e] w']; reflexivity.
Qed.

(** Above the threshold: the two recursive calls, then the synthesis of
    their answers. *)
Lemma aggregate_results_split_run {World}
    (oracle : World -> model -> str -> Z -> reply * World)
    (fuel : nat) (r : Z * str) (rest : list (Z * str)) (query : str)
    (fast_model : bool) (s : state World) :
  50000 < len (combine_results (r :: rest)) ->
  aggregate_results oracle (S fuel) (r :: rest) query fast_model s =
    match aggregate_results oracle fuel (firstn (length (r :: rest) / 2) (r :: rest))
            summarize_query fast_model s with
    | Done a s1 =>
        match aggregate_results oracle fuel (skipn (length (r :: rest) / 2) (r :: rest))
                summarize_query fast_model s1 with
        | Done b s2 =>
            Done (answer_of
                    (fst (oracle (world s2) (model_of fast_model)
                            (aggregation_prompt (summary_parts a b) query) 4096))
                    (summary_parts a b))
                 (State (snd (oracle (world s2) (model_of fast_model)
                                (aggregation_prompt (summary_parts a b) query) 4096))
                        (calls s2 ++ [Call (model_of fast_model)
                                        (aggregation_prompt (summary_parts a b) query)
                                        4096]))
        | Raised e s' => Raised e s'
        | OutOfFuel => OutOfFuel
        end
    | Raised e s' => Raised e s'
    | OutOfFuel => OutOfFuel
    end.
Proof.
  intros Hbig. rewrite aggregate_results_unfold.
  destruct (Z.ltb_spec 50000 (len (combine_results (r :: rest)))); [|lia].
  cbv zeta. unfold bind.
  destruct (aggregate_results oracle fuel (firstn (length (r :: rest) / 2) (r :: rest))
              summarize_query fast_model s) as [a s1|e s1|]; try reflexivity.
  destruct (aggregate_results oracle fuel (skipn (length (r :: rest) / 2) (r :: rest))
              summarize_query fast_model s1) as [b s2|e s2|]; try reflexivity.
  unfold ret. apply synthesis_run.
Qed.

(** At or below the threshold: the synthesis of the labeled text. *)
Lemma aggregate_results_base_run {World}
    (oracle : World -> model -> str -> Z -> reply * World)
    (fuel : nat) (r : Z * str) (rest : list (Z * str)) (query : str)
    (fast_model : bool) (s : state World) :
  len (combine_results (r :: rest)) <= 50000 ->
  aggregate_results oracle (S fuel) (r :: rest) query fast_model s =
    Done (answer_of
            (fst (oracle (world s) (model_of fast_model)
                    (aggregation_prompt (combine_results (r :: rest)) query) 4096))
            (combine_results (r :: rest)))
         (State (snd (oracle (world s) (model_of fast_model)
                        (aggregation_prompt (combine_results (r :: rest)) query) 4096))
                (calls s ++ [Call (model_of fast_model)
                               (aggregation_prompt (combine_results (r :: rest)) query)
                               4096])).
Proof.
  intros Hsmall. rewrite aggregate_results_unfold.
  destruct (Z.ltb_spec 50000 (len (combine_results (r :: rest)))); [lia|].
  unfold bind, ret. apply synthesis_run.
Qed.

Lemma aggregate_results_outcome {World}
    (oracle : World -> model -> str -> Z -> reply * World) (fuel : nat) :
  forall (results : list (Z * str)) (query : str) (fast_model : bool) (s : state World),
    aggregate_results oracle fuel results query fast_model s = OutOfFuel \/
    exists a s', aggregate_results oracle fuel results query fast_model s = Done a s'.
Proof.
  induction fuel as [|fuel IH]; intros results query fast_model s.
  - left. reflexivity.
  - destruct results as [|r rest].
    + right. exists no_information, s. reflexivity.
    + destruct (Z.ltb_spec 50000 (len (combine_results (r :: rest)))) as [Hbig|Hsmall].
      * rewrite aggregate_results_split_run by assumption.
        destruct (IH (firstn (length (r :: rest) / 2) (r :: rest)) summarize_query
                     fast_model s) as [Hl|[a [s1 Hl]]]; rewrite Hl; [left; reflexivity|].
        destruct (IH (skipn (length (r :: rest) / 2) (r :: rest)) summarize_query
                     fast_model s1) as [Hr|[b [s2 Hr]]]; rewrite Hr; [left; reflexivity|].
        right. do 2 eexists. reflexivity.
      * rewrite aggregate_results_base_run by assumption.
        right. do 2 eexists. reflexivity.
Qed.

(** The aggregator lets no exception out: a call returns an answer or does
    not come back. *)
Theorem aggregate_results_never_raises {World}
    (oracle : World -> model -> str -> Z -> reply * World)
    (fuel : nat) (results : list (Z * str)) (query : str) (fast_model : bool)
    (s : state World) (e : str) (s' : state World) :
  aggregate_results oracle fuel results query fast_model s <> Raised e s'.
Proof.
  destruct (aggregate_results_outcome oracle fuel results query fast_model s)
    as [H|[a [s1 H]]]; rewrite H; discriminate.
Qed.

(** For a non-empty list whose labeled text has at most 50,000 characters
    the aggregator makes one oracle call, of 4096 tokens, with the prompt
    built from the labeled text; its answer is the reply as it is, or the
    degraded answer when the call fails. *)
Theorem aggregate_results_one_call {World}
    (oracle : World -> model -> str -> Z -> reply * World)
    (fuel : nat) (results : list (Z * str)) (query : str) (fast_model : bool)
    (s : state World) :
  results <> [] ->
  len (combine_results results) <= 50000 ->
  let prompt := aggregation_prompt (combine_results results) query in
  let m := model_of fast_model in
  aggregate_results oracle (S fuel) results query fast_model s =
    Done (answer_of (fst (oracle (world s) m prompt 4096)) (combine_results results))
         (State (snd (oracle (world s) m prompt 4096))
                (calls s ++ [Call m prompt 4096])).
Proof.
  intros Hne Hsmall prompt m. destruct results as [|r rest]; [congruence|].
  apply aggregate_results_base_run. exact Hsmall.
Qed.

Lemma aggregate_results_one_call_witness :
  let prompt := aggregation_prompt (combine_results [(0, lit "found")]) (lit "query") in
  let m := model_of false in
  aggregate_results (failing_oracle (lit "boom")) 1 [(0, lit "found")] (lit "query") false
    (State tt []) =
    Done (answer_of (fst (failing_oracle (lit "boom") (world (State tt [])) m prompt 4096))
                    (combine_results [(0, lit "found")]))
         (State (snd (failing_oracle (lit "boom") (world (State tt [])) m prompt 4096))
                (calls (State tt []) ++ [Call m prompt 4096])).
Proof.
  apply (aggregate_results_one_call (failing_oracle (lit "boom")) 0 [(0, lit "found")]
           (lit "query") false (State tt [])).
  - discriminate.
  - vm_compute. discriminate.
Defined.

Lemma Forall_firstn_skipn {A} (P : A -> Prop) (n : nat) (l : list A) :
  Forall P l -> Forall P (firstn n l) /\ Forall P (skipn n l).
Proof.
  intros H. rewrite <- (firstn_skipn n l) in H. apply Forall_app in H. exact H.
Qed.

Lemma half_bounds (n : nat) : (2 <= n)%nat -> (1 <= n / 2 < n)%nat.
Proof.
  intros H. split.
  - apply Nat.div_le_lower_bound; lia.
  - apply Nat.div_lt; lia.
Qed.

Lemma aggregate_results_returns_run {World}
    (oracle : World -> model -> str -> Z -> reply * World)
    (fuel : nat) (results : list (Z * str)) (query : str) (fast_model : bool)
    (s : state World) :
  Forall (fun r => len (section_block r) <= 50000) results ->
  (length results < fuel)%nat ->
  exists answer s', aggregate_results oracle fuel results query fast_model s = Done answer s'.
Proof.
  revert results query s.
  induction fuel as [|fuel IH]; intros results query s Hall Hfuel; [lia|].
  destruct results as [|r rest]; [exists no_information, s; reflexivity|].
  destruct (Z.ltb_spec 50000 (len (combine_results (r :: rest)))) as [Hbig|Hsmall].
  - rewrite aggregate_results_split_run by assumption.
    assert (Hlen : (2 <= length (r :: rest))%nat).
    { destruct rest as [|r' rest]; [|simpl; lia].
      inversion Hall as [|? ? Hr _]; subst.
      unfold combine_results in Hbig. simpl in Hbig. lia. }
    pose proof (half_bounds _ Hlen) as [Hmid1 Hmid2].
    destruct (Forall_firstn_skipn _ (length (r :: rest) / 2) _ Hall) as [Hleft Hright].
    destruct (IH (firstn (length (r :: rest) / 2) (r :: rest)) summarize_query s Hleft)
      as [a [s1 Hl]].
    { rewrite length_firstn. lia. }
    rewrite Hl.
    destruct (IH (skipn (length (r :: rest) / 2) (r :: rest)) summarize_query s1 Hright)
      as [b [s2 Hr]].
    { rewrite length_skipn. lia. }
    rewrite Hr. do 2 eexists. reflexivity.
  - rewrite aggregate_results_base_run by assumption. do 2 eexists. reflexivity.
Qed.

(** When the labeled text of every pair alone has at most 50,000
    characters, the aggregator returns: a list above the threshold has two
    pairs or more, and both halves of its split are shorter. *)
Theorem aggregate_results_returns {World}
    (oracle : World -> model -> str -> Z -> reply * World)
    (fuel : nat) (results : list (Z * str)) (query : str) (fast_model : bool)
    (s : state World) :
  Forall (fun r => len (section_block r) <= 50000) results ->
  (length results < fuel)%nat ->
  exists answer s', aggregate_results oracle fuel results query fast_model s = Done answer s'.
Proof. apply aggregate_results_returns_run. Qed.

Lemma aggregate_results_returns_witness :
  exists answer s',
    aggregate_results (constant_oracle (lit "fine")) 3 [(0, lit "a"); (1, lit "b")]
      (lit "query") false (State tt []) = Done answer s'.
Proof.
  apply (aggregate_results_returns (constant_oracle (lit "fine")) 3
           [(0, lit "a"); (1, lit "b")] (lit "query") false (State tt [])).
  - repeat constructor; vm_compute; discriminate.
  - simpl. lia.
Defined.

Lemma join_len_ge (sep p : str) (parts : list str) :
  In p parts -> len p <= len (join sep parts).
Proof.
  induction parts as [|q parts IH]; intros Hin; [contradiction|].
  destruct parts as [|q' parts].
  - destruct Hin as [<-|[]]. simpl. lia.
  - rewrite join_cons by discriminate. rewrite !len_app.
    pose proof (len_nonneg sep). pose proof (len_nonneg q).
    pose proof (len_nonneg (join sep (q' :: parts))).
    destruct Hin as [<-|Hin]; [lia|]. specialize (IH Hin). lia.
Qed.

(** When the labeled text of some pair alone has more than 50,000
    characters, the aggregator does not return: every list that holds the
    pair is above the threshold, and one half of its split holds the pair
    again. *)
Theorem aggregate_results_oversized_pair_diverges {World}
    (oracle : World -> model -> str -> Z -> reply * World)
    (results : list (Z * str)) (r : Z * str) :
  In r results ->
  50000 < len (section_block r) ->
  forall (fuel : nat) (query : str) (fast_model : bool) (s : state World),
    aggregate_results oracle fuel results query fast_model s = OutOfFuel.
Proof.
  intros Hin Hbig fuel. revert results Hin.
  induction fuel as [|fuel IH]; intros results Hin query fast_model s; [reflexivity|].
  destruct results as [|r0 rest]; [contradiction|].
  assert (Hge : len (section_block r) <= len (combine_results (r0 :: rest))).
  { unfold combine_results. apply join_len_ge. apply in_map. exact Hin. }
  rewrite aggregate_results_split_run by lia.
  rewrite <- (firstn_skipn (length (r0 :: rest) / 2) (r0 :: rest)) in Hin.
  apply in_app_or in Hin. destruct Hin as [Hl|Hr].
  - rewrite (IH _ Hl). reflexivity.
  - destruct (aggregate_results_outcome oracle fuel
                (firstn (length (r0 :: rest) / 2) (r0 :: rest)) summarize_query
                fast_model s) as [H0|[a [s1 H0]]]; rewrite H0; [reflexivity|].
    rewrite (IH _ Hr). reflexivity.
Qed.

Lemma aggregate_results_oversized_pair_diverges_witness :
  In (1, oversized_extraction) [(0, lit "short"); (1, oversized_extraction)] /\
  forall (fuel : nat) (query : str) (fast_model : bool) (s : state unit),
    aggregate_results (constant_oracle (lit "fine")) fuel
      [(0, lit "short"); (1, oversized_extraction)] query fast_model s = OutOfFuel.
Proof.
  split; [right; left; reflexivity|].
  apply (aggregate_results_oversized_pair_diverges (constant_oracle (lit "fine"))
           [(0, lit "short"); (1, oversized_extraction)] (1, oversized_extraction)).
  - right. left. reflexivity.
  - vm_compute. reflexivity.
Defined.

(** ** More on the pipeline *)

Lemma process_selected_cons {World}
    (oracle : World -> model -> str -> Z -> reply * World)
    (orig_idx : nat) (chunk : str) (rest : list (nat * str)) (total_chunks : Z)
    (query : str) (fast_model : bool) (acc : list (Z * str)) (s : state World) :
  process_selected oracle ((orig_idx, chunk) :: rest) total_chunks query fast_model acc s =
    let prompt := chunk_prompt chunk (Z.of_nat orig_idx) total_chunks query in
    let o := oracle (world s) (model_of fast_model) prompt 2048 in
    process_selected oracle rest total_chunks query fast_model
      (match extraction_of (fst o) with
       | Some (c :: r) => acc ++ [(Z.of_nat orig_idx, c :: r)]
       | _ => acc
       end)
      (State (snd o) (calls s ++ [Call (model_of fast_model) prompt 2048])).
Proof.
  cbn [process_selected]. unfold bind at 1. rewrite process_chunk_run. reflexivity.
Qed.

(** The loop over the selected chunks appends to its accumulator: what it
    adds are non-empty extractions, each under the index of a selected
    chunk, at most one for each chunk and in the order of the selection. *)
Theorem process_selected_results {World}
    (oracle : World -> model -> str -> Z -> reply * World)
    (indexed_chunks : list (nat * str)) (total_chunks : Z) (query : str)
    (fast_model : bool) (acc results : list (Z * str)) (s s1 : state World) :
  process_selected oracle indexed_chunks total_chunks query fast_model acc s
    = Done results s1 ->
  exists kept,
    results = acc ++ kept /\
    (length kept <= length indexed_chunks)%nat /\
    Forall (fun ir => snd ir <> [] /\
                      exists j c, In (j, c) indexed_chunks /\ fst ir = Z.of_nat j) kept /\
    (StronglySorted lt (map fst indexed_chunks) -> StronglySorted Z.lt (map fst kept)).
Proof.
  revert acc s. induction indexed_chunks as [|[j c] rest IH]; intros acc s Hrun.
  - simpl in Hrun. injection Hrun as <- _. exists [].
    rewrite app_nil_r. repeat split; constructor.
  - rewrite process_selected_cons in Hrun. cbv zeta in Hrun.
    apply IH in Hrun. destruct Hrun as [kept [Hres [Hlen [Hall Hsorted]]]].
    assert (Hall' : Forall (fun ir : Z * str => snd ir <> [] /\
                      exists j' c', In (j', c') ((j, c) :: rest) /\ fst ir = Z.of_nat j') kept).
    { eapply Forall_impl; [|exact Hall].
      intros ir [Hne [j' [c' [Hin Hfst]]]]. split; [exact Hne|].
      exists j', c'. split; [right; exact Hin | exact Hfst]. }
    assert (Hsorted' : StronglySorted lt (map fst ((j, c) :: rest)) ->
                       StronglySorted Z.lt (map fst kept) /\
                       Forall (fun i => Z.of_nat j < i) (map fst kept)).
    { intros Hs. cbn [map fst] in Hs. apply StronglySorted_inv in Hs.
      destruct Hs as [Hs' Hlt]. split; [auto|].
      apply Forall_forall. intros i Hi.
      apply in_map_iff in Hi. destruct Hi as [ir [<- Hir]].
      rewrite Forall_forall in Hall. destruct (Hall ir Hir) as [_ [j' [c' [Hin Hfst]]]].
      rewrite Forall_forall in Hlt.
      assert (Hjj : (j < j')%nat) by (apply Hlt; apply (in_map fst _ _ Hin)).
      destruct ir as [i x]. cbn [fst] in Hfst |- *. lia. }
    destruct (extraction_of _) as [[|x r]|] eqn:Hex.
    + exists kept. repeat split; [exact Hres | simpl; lia | exact Hall' | apply Hsorted'].
    + exists ((Z.of_nat j, x :: r) :: kept). split; [|split; [|split]].
      * rewrite Hres, <- app_assoc. reflexivity.
      * simpl. lia.
      * constructor; [|exact Hall']. split; [discriminate|].
        exists j, c. split; [left; reflexivity | reflexivity].
      * intros Hs. destruct (Hsorted' Hs). cbn [map fst]. constructor; assumption.
    + exists kept. repeat split; [exact Hres | simpl; lia | exact Hall' | apply Hsorted'].
Qed.

Lemma process_selected_results_witness :
  exists kept,
    [(0, lit "fine"); (1, lit "fine")] = [] ++ kept /\
    (length kept <= length (enumerate [lit "ab"; lit "cd"]))%nat /\
    Forall (fun ir => snd ir <> [] /\
                      exists j c, In (j, c) (enumerate [lit "ab"; lit "cd"]) /\
                                  fst ir = Z.of_nat j) kept /\
    (StronglySorted lt (map fst (enumerate [lit "ab"; lit "cd"])) ->
     StronglySorted Z.lt (map fst kept)).
Proof.
  apply (process_selected_results (constant_oracle (lit " fine ")) (enumerate [lit "ab"; lit "cd"])
           2 (lit "query") false [] [(0, lit "fine"); (1, lit "fine")] (State tt [])
           (State tt [chunk_call 2 (lit "query") false (0%nat, lit "ab");
                      chunk_call 2 (lit "query") false (1%nat, lit "cd")])).
  vm_compute. reflexivity.
Defined.

(** From chunking on, [rlm_process] lets no exception out: the errors of
    the oracle are turned into absent extractions and into the degraded
    answer. *)
Theorem rlm_process_never_raises {World}
    (oracle : World -> model -> str -> Z -> reply * World)
    (fuel : nat) (content query : str) (chunk_size : Z)
    (fast_model filter_chunks : bool) (s : state World) (e : str) (s' : state World) :
  rlm_process oracle fuel content query chunk_size fast_model filter_chunks s
    <> Raised e s'.
Proof.
  unfold rlm_process.
  destruct (auto_chunk fuel content chunk_size) as [[chunks strat]|]; [|discriminate].
  destruct (process_selected_run oracle (select_chunks filter_chunks chunks query)
              (len chunks) query fast_model [] s) as [results [s1 [Hrun _]]].
  unfold bind. rewrite Hrun.
  destruct (aggregate_results_outcome oracle fuel results query fast_model s1)
    as [H|[a [s2 H]]]; rewrite H; discriminate.
Qed.

Lemma process_selected_quiet {World}
    (oracle : World -> model -> str -> Z -> reply * World)
    (total_chunks : Z) (query : str) (fast_model : bool) :
  (forall w m p t, no_extraction (fst (oracle w m p t))) ->
  forall (indexed_chunks : list (nat * str)) (acc : list (Z * str)) (s : state World),
  exists s1,
    process_selected oracle indexed_chunks total_chunks query fast_model acc s
      = Done acc s1 /\
    calls s1 = calls s ++ map (chunk_call total_chunks query fast_model) indexed_chunks.
Proof.
  intros Hquiet. induction indexed_chunks as [|[j c] rest IH]; intros acc s.
  - exists s. split; [reflexivity|]. simpl. rewrite app_nil_r. reflexivity.
  - rewrite process_selected_cons. cbv zeta.
    match goal with
    | |- context [extraction_of (fst (oracle ?w ?m ?p ?t))] =>
        destruct (Hquiet w m p t) as [Hex|Hex]; rewrite Hex
    end;
    match goal with
    | |- context [process_selected oracle rest total_chunks query fast_model acc ?t] =>
        destruct (IH acc t) as [s1 [Hrun Hcalls]]
    end;
    exists s1; (split; [exact Hrun|]);
    rewrite Hcalls; cbn [calls map]; rewrite <- app_assoc; reflexivity.
Qed.

(** When no reply of the oracle yields an extraction, [rlm_process] asks the
    oracle once for every selected chunk and returns the fixed answer
    [no_information] without a synthesis call. *)
Theorem rlm_process_nothing_found {World}
    (oracle : World -> model -> str -> Z -> reply * World)
    (fuel : nat) (content query : str) (chunk_size : Z)
    (fast_model filter_chunks : bool) (chunks : list str) (strat : strategy)
    (s : state World) :
  auto_chunk (S fuel) content chunk_size = Some (chunks, strat) ->
  (forall w m p t, no_extraction (fst (oracle w m p t))) ->
  exists s1,
    rlm_process oracle (S fuel) content query chunk_size fast_model filter_chunks s
      = Done no_information s1 /\
    calls s1 = calls s ++ map (chunk_call (len chunks) query fast_model)
                              (select_chunks filter_chunks chunks query).
Proof.
  intros Hchunks Hquiet.
  destruct (process_selected_quiet oracle (len chunks) query fast_model Hquiet
              (select_chunks filter_chunks chunks query) [] s) as [s1 [Hrun Hcalls]].
  exists s1. split; [|exact Hcalls].
  unfold rlm_process. rewrite Hchunks. unfold bind. rewrite Hrun. reflexivity.
Qed.

Lemma rlm_process_nothing_found_witness :
  exists s1,
    rlm_process (failing_oracle (lit "boom")) 1 (lit "abc") (lit "query") 40000
      false true (State tt []) = Done no_information s1 /\
    calls s1 = calls (State tt []) ++ map (chunk_call (len [lit "abc"]) (lit "query") false)
                              (select_chunks true [lit "abc"] (lit "query")).
Proof.
  apply (rlm_process_nothing_found (failing_oracle (lit "boom")) 0 (lit "abc") (lit "query")
           40000 false true [lit "abc"] character_count (State tt [])).
  - vm_compute. reflexivity.
  - intros w m p t. left. reflexivity.
Defined.

(** ** The directory processor *)

(** [process_combined] of directory_processor.py is [rlm_process] from
    chunking on, with the relevance filter switched on. *)
Theorem process_combined_is_rlm_process {World}
    (oracle : World -> model -> str -> Z -> reply * World)
    (fuel : nat) (combined_content query : str) (chunk_size : Z) (fast_model : bool)
    (s : state World) :
  DirectoryProcessor.process_combined oracle fuel combined_content query chunk_size
    fast_model s
  = rlm_process oracle fuel combined_content query chunk_size fast_model true s.
Proof.
  unfold DirectoryProcessor.process_combined, rlm_process, select_chunks.
  destruct (auto_chunk fuel combined_content chunk_size) as [[chunks strat]|];
    reflexivity.
Qed.

Lemma join_parts_fold (files : list DirectoryProcessor.FileEntry) :
  forall parts : list str,
    parts <> [] ->
    join nl
      (fold_left
         (fun parts entry =>
            match DirectoryProcessor.content entry with
            | Some c => parts ++ [DirectoryProcessor.file_marker entry; c; []]
            | None => parts
            end)
         files parts)
    = join nl parts ++ concat (map file_block files).
Proof.
  induction files as [|entry files IH]; intros parts Hne.
  - simpl. rewrite app_nil_r. reflexivity.
  - cbn [fold_left map concat]. unfold file_block at 1.
    destruct (DirectoryProcessor.content entry) as [c|].
    + rewrite IH by (destruct parts; discriminate).
      rewrite join_app by (assumption || discriminate).
      cbn [join]. rewrite <- !app_assoc. reflexivity.
    + rewrite IH by assumption. reflexivity.
Qed.

(** The combined content is the manifest, an empty line, and for every
    file that was loaded its marker line, its content and a newline, in the
    order of the files; a file that was not loaded adds nothing. *)
Theorem build_combined_content_closed_form
    (files : list DirectoryProcessor.FileEntry) (manifest : str) :
  DirectoryProcessor.build_combined_content files manifest
  = manifest ++ nl ++ concat (map file_block files).
Proof.
  unfold DirectoryProcessor.build_combined_content. cbv zeta.
  rewrite join_parts_fold by discriminate.
  cbn [join]. rewrite <- !app_assoc. reflexivity.
Qed.

(** ** The chunks of [auto_chunk] *)

Ltac case_if_in H :=
  match type of H with
  | context [if ?c then _ else _] => destruct c eqn:?
  end.

(** The chunks of the strategy [line_count], joined by a newline, are the
    content; so are, for a target chunk size above 500, the chunks of the
    strategy [character_count] without their overlap of 500 characters. *)
Theorem auto_chunk_reconstructs (fuel : nat) (content : str) (target_chunk_size : Z)
    (chunks : list str) (strat : strategy) :
  auto_chunk fuel content target_chunk_size = Some (chunks, strat) ->
  (strat = line_count -> join nl chunks = content) /\
  (strat = character_count -> 500 < target_chunk_size ->
   concat (drop_overlap 500 chunks) = content).
Proof.
  intros H. unfold auto_chunk in H. cbv zeta in H.
  repeat case_if_in H; cbv iota beta in H;
    try (apply some_eq in H; injection H as <- <-; split; intros; discriminate).
  - apply some_eq in H. injection H as <- <-. split; [|intros; discriminate].
    intros _. apply chunk_by_lines_join.
    pose proof (Z.le_max_l 100 (target_chunk_size / 100)). lia.
  - apply option_map_some in H. destruct H as [chunks' [Hrun Heq]].
    injection Heq as -> <-. split; [intros; discriminate|].
    intros _ Ht.
    assert (Ho : 0 <= 500 < target_chunk_size) by lia.
    destruct (chunk_by_chars_concat content target_chunk_size 500 Ho)
      as [fuel' [chunks' [Hrun' Hcat]]].
    destruct (chunk_by_chars_closed_form content target_chunk_size 500 Ho) as [_ Huniq].
    rewrite (Huniq _ _ Hrun). rewrite <- (Huniq _ _ Hrun'). exact Hcat.
  - apply some_eq in H. injection H as <- <-. split; [|intros; discriminate].
    intros _. apply chunk_by_lines_join.
    pose proof (Z.le_max_l 100 (target_chunk_size / 100)). lia.
  - apply option_map_some in H. destruct H as [chunks' [Hrun Heq]].
    injection Heq as -> <-. split; [intros; discriminate|].
    intros _ Ht.
    assert (Ho : 0 <= 500 < target_chunk_size) by lia.
    destruct (chunk_by_chars_concat content target_chunk_size 500 Ho)
      as [fuel' [chunks' [Hrun' Hcat]]].
    destruct (chunk_by_chars_closed_form content target_chunk_size 500 Ho) as [_ Huniq].
    rewrite (Huniq _ _ Hrun). rewrite <- (Huniq _ _ Hrun'). exact Hcat.
Qed.

Lemma auto_chunk_returns_run (content : str) (target_chunk_size : Z) :
  500 < target_chunk_size ->
  exists fuel r, auto_chunk fuel content target_chunk_size = Some r.
Proof.
  intros Ht. exists (Z.to_nat (len content)).
  destruct (loop_returns content target_chunk_size 500 (Z.to_nat (len content)) 0 [])
    as [r Hr]; [lia | lia | lia | lia |].
  unfold auto_chunk. cbv zeta. unfold chunk_by_chars. rewrite Hr.
  repeat match goal with
         | |- context [if ?c then _ else _] => destruct c
         end;
    eexists; reflexivity.
Qed.

(** With a target chunk size above 500, [auto_chunk] returns for every
    content. *)
Theorem auto_chunk_returns (content : str) (target_chunk_size : Z) :
  500 < target_chunk_size ->
  exists fuel r, auto_chunk fuel content target_chunk_size = Some r.
Proof. apply auto_chunk_returns_run. Qed.

Lemma auto_chunk_returns_witness :
  exists fuel r, auto_chunk fuel (lit "some content here") 40000 = Some r.
Proof.
  apply (auto_chunk_returns (lit "some content here") 40000). lia.
Defined.

Lemma auto_chunk_reconstructs_witness :
  (character_count = line_count -> join nl [lit "abc"] = lit "abc") /\
  (character_count = character_count -> 500 < 40000 ->
   concat (drop_overlap 500 [lit "abc"]) = lit "abc").
Proof.
  apply (auto_chunk_reconstructs 1 (lit "abc") 40000 [lit "abc"] character_count).
  vm_compute. reflexivity.
Defined.

(** ** The pipeline returns *)

Lemma select_chunks_original (filter_chunks : bool) (chunks : list str) (query : str) :
  (forall j c, In (j, c) (select_chunks filter_chunks chunks query) ->
     nth_error chunks j = Some c) /\
  (length (select_chunks filter_chunks chunks query) <= length chunks)%nat.
Proof.
  assert (Hall : forall j c, In (j, c) (enumerate chunks) -> nth_error chunks j = Some c).
  { intros j c Hin. apply enumerate_from_In in Hin.
    rewrite Nat.sub_0_r in Hin. tauto. }
  assert (Hlen : length (enumerate chunks) = length chunks)
    by apply enumerate_from_length.
  unfold select_chunks. destruct (filter_chunks && (3 <? len chunks)).
  - destruct (filter_relevant_chunks_cases chunks query None) as [H|[p [H _]]];
      rewrite H.
    + split; [exact Hall | lia].
    + split.
      * intros j c Hin. apply filter_In in Hin. apply Hall. tauto.
      * pose proof (filter_length_le p (enumerate chunks)). lia.
  - split; [exact Hall | lia].
Qed.

(** What holds of every extraction that the oracle can give for a selected
    chunk holds of every pair that the loop adds. *)
Lemma process_selected_invariant {World}
    (oracle : World -> model -> str -> Z -> reply * World)
    (P : Z * str -> Prop) (total_chunks : Z) (query : str) (fast_model : bool) :
  forall (indexed_chunks : list (nat * str)),
  (forall j c w m p t x, In (j, c) indexed_chunks ->
     extraction_of (fst (oracle w m p t)) = Some x -> P (Z.of_nat j, x)) ->
  forall (acc : list (Z * str)) (s : state World),
  Forall P acc ->
  exists results s1,
    process_selected oracle indexed_chunks total_chunks query fast_model acc s
      = Done results s1 /\
    Forall P results /\
    (length results <= length acc + length indexed_chunks)%nat.
Proof.
  induction indexed_chunks as [|[j c] rest IH]; intros HP acc s Hacc.
  - exists acc, s. split; [reflexivity|]. split; [exact Hacc | simpl; lia].
  - rewrite process_selected_cons. cbv zeta.
    assert (HP' : forall j c w m p t x, In (j, c) rest ->
              extraction_of (fst (oracle w m p t)) = Some x -> P (Z.of_nat j, x)).
    { intros j' c' w m p t x Hin. apply (HP j' c'). right. exact Hin. }
    destruct (extraction_of _) as [[|x r]|] eqn:Hex.
    + match goal with
      | |- context [process_selected oracle rest total_chunks query fast_model acc ?t] =>
          destruct (IH HP' acc t Hacc) as [results [s1 [Hrun [Hall Hlen]]]]
      end.
      exists results, s1. split; [exact Hrun|]. split; [exact Hall | simpl; lia].
    + assert (Hacc' : Forall P (acc ++ [(Z.of_nat j, x :: r)])).
      { apply Forall_app. split; [exact Hacc|]. constructor; [|constructor].
        apply (HP j c _ _ _ _ _ (or_introl eq_refl) Hex). }
      match goal with
      | |- context [process_selected oracle rest total_chunks query fast_model ?a ?t] =>
          destruct (IH HP' a t Hacc') as [results [s1 [Hrun [Hall Hlen]]]]
      end.
      exists results, s1. split; [exact Hrun|]. split; [exact Hall|].
      rewrite length_app in Hlen. simpl in Hlen |- *. lia.
    + match goal with
      | |- context [process_selected oracle rest total_chunks query fast_model acc ?t] =>
          destruct (IH HP' acc t Hacc) as [results [s1 [Hrun [Hall Hlen]]]]
      end.
      exists results, s1. split; [exact Hrun|]. split; [exact Hall | simpl; lia].
Qed.

(** When chunking returns and the labeled text of every extraction that the
    oracle can give has at most 50,000 characters, [rlm_process] returns an
    answer. *)
Theorem rlm_process_returns {World}
    (oracle : World -> model -> str -> Z -> reply * World)
    (fuel : nat) (content query : str) (chunk_size : Z)
    (fast_model filter_chunks : bool) (chunks : list str) (strat : strategy)
    (s : state World) :
  auto_chunk fuel content chunk_size = Some (chunks, strat) ->
  (forall i w m p t x, 0 <= i < len chunks ->
     extraction_of (fst (oracle w m p t)) = Some x ->
     len (section_block (i, x)) <= 50000) ->
  exists fuel' answer s',
    rlm_process oracle fuel' content query chunk_size fast_model filter_chunks s
      = Done answer s'.
Proof.
  intros Hchunks Hsmall.
  destruct (select_chunks_original filter_chunks chunks query) as [Horig Hlen].
  destruct (process_selected_invariant oracle
              (fun r => len (section_block r) <= 50000) (len chunks) query fast_model
              (select_chunks filter_chunks chunks query)) with (acc := @nil (Z * str)) (s := s)
    as [results [s1 [Hrun [Hall Hres]]]].
  - intros j c w m p t x Hin Hex. apply (Hsmall _ w m p t); [|exact Hex].
    apply Horig in Hin.
    assert (j < length chunks)%nat by (apply nth_error_Some; congruence).
    unfold len. lia.
  - constructor.
  - exists (Nat.max fuel (S (length chunks))).
    destruct (aggregate_results_returns_run oracle (Nat.max fuel (S (length chunks)))
                results query fast_model s1 Hall) as [answer [s' Hagg]].
    { simpl in Hres. lia. }
    exists answer, s'. unfold rlm_process.
    rewrite (auto_chunk_fuel_mono fuel (Nat.max fuel (S (length chunks))) content chunk_size
               (chunks, strat)) by (lia || assumption).
    unfold bind. rewrite Hrun. exact Hagg.
Qed.

Lemma rlm_process_returns_witness :
  exists fuel' answer s',
    rlm_process (constant_oracle (lit "fine")) fuel' (lit "abc") (lit "query") 40000
      false true (State tt []) = Done answer s'.
Proof.
  apply (rlm_process_returns (constant_oracle (lit "fine")) 1 (lit "abc") (lit "query") 40000
           false true [lit "abc"] character_count (State tt [])).
  - vm_compute. reflexivity.
  - intros i w m p t x Hi Hex.
    assert (i = 0) by (unfold len in Hi; simpl in Hi; lia). subst i.
    vm_compute in Hex. injection Hex as <-. vm_compute. discriminate.
Defined.

(** ** Separators that are counted and not split at *)

(** [auto_chunk] counts the lines of dashes and the lines of equals signs
    as document separators and splits at the lines of dashes only: a
    content that the counts send to the strategy [document_separator] and
    that holds no line of dashes comes back as the one chunk, stripped. *)
Theorem auto_chunk_equals_separators (fuel : nat) (content : str) (target_chunk_size : Z) :
  5 < count_matches doc_sep_at content 0 ->
  len content < target_chunk_size * 2 * count_matches doc_sep_at content 0 ->
  contains (nl ++ lit "---") content = false ->
  auto_chunk fuel content target_chunk_size =
    Some ((if nonblank content then [strip content] else []), document_separator).
Proof.
  intros Hseps Hsize Habs. unfold auto_chunk. cbv zeta.
  destruct (Z.ltb_spec 5 (count_matches doc_sep_at content 0)); [|lia].
  destruct (Z.ltb_spec (len content)
              (target_chunk_size * 2 * count_matches doc_sep_at content 0)); [|lia].
  cbn [andb]. rewrite chunk_by_separator_absent_run by assumption. reflexivity.
Qed.

Lemma auto_chunk_equals_separators_witness :
  auto_chunk 0 equals_separated 10 =
    Some ((if nonblank equals_separated then [strip equals_separated] else []),
          document_separator).
Proof.
  apply (auto_chunk_equals_separators 0 equals_separated 10).
  - vm_compute. reflexivity.
  - vm_compute. reflexivity.
  - vm_compute. reflexivity.
Defined.

(** ** Stop words *)

(** A query all of whose words of four characters or more are stop words
    has no keyword: without an explicit keyword list every chunk is
    returned. *)
Theorem filter_relevant_chunks_stopwords_only (chunks : list str) (query : str) :
  (forall w, In w (words4 (lower query)) -> mem w stopwords = true) ->
  filter_relevant_chunks chunks query None = enumerate chunks.
Proof.
  intros Hstop. rewrite filter_relevant_chunks_unfold. cbv zeta.
  assert (Hnone : effective_keywords query None = []).
  { unfold effective_keywords. apply filter_none.
    intros w Hw. rewrite (Hstop w Hw). reflexivity. }
  rewrite Hnone. reflexivity.
Qed.

Lemma filter_relevant_chunks_stopwords_only_witness :
  filter_relevant_chunks [lit "alpha"; lit "beta"] (lit "What does this show?") None
  = enumerate [lit "alpha"; lit "beta"].
Proof.
  apply (filter_relevant_chunks_stopwords_only [lit "alpha"; lit "beta"]
           (lit "What does this show?")).
  vm_compute. intros w [<-|[<-|[<-|[<-|[]]]]]; reflexivity.
Defined.

(** ** The oracle calls of a run *)

(** A run of [rlm_process] whose extractions are not empty and whose
    labeled text has at most 50,000 characters makes one oracle call for
    every selected chunk, in order, and then one synthesis call. *)
Theorem rlm_process_call_log {World}
    (oracle : World -> model -> str -> Z -> reply * World)
    (fuel : nat) (content query : str) (chunk_size : Z)
    (fast_model filter_chunks : bool) (chunks : list str) (strat : strategy)
    (results : list (Z * str)) (s s1 : state World) :
  auto_chunk (S fuel) content chunk_size = Some (chunks, strat) ->
  process_selected oracle (select_chunks filter_chunks chunks query) (len chunks)
    query fast_model [] s = Done results s1 ->
  results <> [] ->
  len (combine_results results) <= 50000 ->
  exists answer s2,
    rlm_process oracle (S fuel) content query chunk_size fast_model filter_chunks s
      = Done answer s2 /\
    calls s2 = calls s
               ++ map (chunk_call (len chunks) query fast_model)
                      (select_chunks filter_chunks chunks query)
               ++ [Call (model_of fast_model)
                     (aggregation_prompt (combine_results results) query) 4096].
Proof.
  intros Hchunks Hrun Hne Hsmall.
  destruct (process_selected_run oracle (select_chunks filter_chunks chunks query)
              (len chunks) query fast_model [] s) as [results' [s1' [Hrun' Hcalls]]].
  rewrite Hrun in Hrun'. injection Hrun' as <- <-.
  destruct results as [|r rest]; [congruence|].
  do 2 eexists. split.
  - unfold rlm_process. rewrite Hchunks. unfold bind. rewrite Hrun.
    apply aggregate_results_base_run. exact Hsmall.
  - cbn [calls]. rewrite Hcalls, <- app_assoc. reflexivity.
Qed.

Lemma rlm_process_call_log_witness :
  exists answer s2,
    rlm_process (constant_oracle (lit " fine ")) 1 (lit "abc") (lit "query") 40000
      false true (State tt []) = Done answer s2 /\
    calls s2 = calls (State tt [])
               ++ map (chunk_call (len [lit "abc"]) (lit "query") false)
                      (select_chunks true [lit "abc"] (lit "query"))
               ++ [Call (model_of false)
                     (aggregation_prompt (combine_results [(0, lit "fine")]) (lit "query"))
                     4096].
Proof.
  apply (rlm_process_call_log (constant_oracle (lit " fine ")) 0 (lit "abc") (lit "query")
           40000 false true [lit "abc"] character_count [(0, lit "fine")] (State tt [])
           (State tt [chunk_call 1 (lit "query") false (0%nat, lit "abc")])).
  - vm_compute. reflexivity.
  - vm_compute. reflexivity.
  - discriminate.
  - vm_compute. discriminate.
Defined.

(** ** The end-to-end chunking scenario: 100,000 times one character *)

Lemma count_nl_repeat (c : ascii) (n : nat) :
  is_nl c = false -> count_nl (repeat c n) = 0.
Proof.
  intros Hc. induction n as [|n IH]; [reflexivity|].
  cbn [repeat]. rewrite count_nl_cons, Hc, IH. reflexivity.
Qed.

Lemma len_repeat_100k (c : ascii) : len (repeat c (Z.to_nat 100000)) = 100000.
Proof. unfold len. rewrite repeat_length. apply Z2Nat.id. lia. Qed.

(** The chunks of any content of 100,000 characters for chunk size 40,000,
    without overlap and with the default overlap. *)
Lemma chunk_by_chars_100k (content : str) (o : Z) :
  len content = 100000 -> o = 0 \/ o = 500 ->
  exists chunks,
    (forall fuel, (3 <= fuel)%nat ->
       chunk_by_chars fuel content 40000 o = Some chunks) /\
    map len chunks = [40000; 40000; 20000 + 2 * o].
Proof.
  intros HL Ho.
  assert (Hrange : 0 <= o < 40000) by lia.
  assert (Hn : windows_from content 40000 o 0 = 3%nat).
  { unfold windows_from, ceil_div. rewrite HL. destruct Ho; subst o; reflexivity. }
  exists (windows content 40000 (40000 - o) 3 0). split.
  - intros fuel Hfuel. unfold chunk_by_chars.
    rewrite (loop_windows content 40000 o Hrange fuel 0 []);
      [rewrite Hn; reflexivity | lia | lia | rewrite Hn; lia].
  - cbn [windows map].
    rewrite !len_slice by (rewrite ?HL; lia).
    rewrite HL. repeat (f_equal; try lia).
Qed.

(** Counterexample to C4 as stated: a content of 100,000 newlines is
    100,000 times one character, and the pipeline chunks it by lines, into
    251 chunks; for no fuel does it choose [character_count]. *)
Lemma auto_chunk_newlines_not_character_count :
  option_map count_and_strategy (auto_chunk 0 newlines_100k 40000)
    = Some (251, line_count) /\
  ~ exists fuel chunks,
      auto_chunk fuel newlines_100k 40000 = Some (chunks, character_count).
Proof.
  assert (Hrun : option_map count_and_strategy (auto_chunk 0 newlines_100k 40000)
                 = Some (251, line_count)) by (vm_compute; reflexivity).
  split; [exact Hrun|].
  intros [fuel [chunks H]].
  destruct (option_map_some count_and_strategy (auto_chunk 0 newlines_100k 40000) _ Hrun)
    as [r [E Hr]].
  pose proof (auto_chunk_fuel_mono 0 fuel newlines_100k 40000 r (Nat.le_0_l fuel) E) as H1.
  rewrite H1 in H. apply some_eq in H. subst r.
  unfold count_and_strategy in Hr. cbn [fst snd] in Hr.
  apply (f_equal snd) in Hr. cbn [snd] in Hr. discriminate Hr.
Qed.

(** C4, amended.  For a content of 100,000 times one character that is not
    the newline and target size 40,000, [auto_chunk] chooses
    [character_count] and, since it calls [chunk_by_chars] with the default
    overlap of 500, returns chunks of 40,000, 40,000 and 21,000 characters;
    [chunk_by_chars] called with chunk size 40,000 and overlap 0 returns
    chunks of 40,000, 40,000 and 20,000 characters. *)
Theorem auto_chunk_repeated_char_sizes (c : ascii) :
  is_nl c = false ->
  (exists chunks,
     (forall fuel, (3 <= fuel)%nat ->
        auto_chunk fuel (repeat c (Z.to_nat 100000)) 40000
          = Some (chunks, character_count)) /\
     map len chunks = [40000; 40000; 21000]) /\
  (exists chunks,
     (forall fuel, (3 <= fuel)%nat ->
        chunk_by_chars fuel (repeat c (Z.to_nat 100000)) 40000 0 = Some chunks) /\
     map len chunks = [40000; 40000; 20000]).
Proof.
  intros Hc.
  pose proof (len_repeat_100k c) as HL.
  split.
  - destruct (chunk_by_chars_100k _ 500 HL (or_intror eq_refl)) as [chunks [Hrun Hsizes]].
    exists chunks. split; [|exact Hsizes].
    intros fuel Hfuel.
    rewrite auto_chunk_few_lines by (rewrite count_nl_repeat by exact Hc; lia).
    rewrite (Hrun fuel Hfuel). reflexivity.
  - destruct (chunk_by_chars_100k _ 0 HL (or_introl eq_refl)) as [chunks [Hrun Hsizes]].
    exists chunks. split; [exact Hrun | exact Hsizes].
Qed.

Lemma auto_chunk_repeated_char_sizes_witness :
  (exists chunks,
     (forall fuel, (3 <= fuel)%nat ->
        auto_chunk fuel (repeat "a"%char (Z.to_nat 100000)) 40000
          = Some (chunks, character_count)) /\
     map len chunks = [40000; 40000; 21000]) /\
  (exists chunks,
     (forall fuel, (3 <= fuel)%nat ->
        chunk_by_chars fuel (repeat "a"%char (Z.to_nat 100000)) 40000 0 = Some chunks) /\
     map len chunks = [40000; 40000; 20000]).
Proof.
  apply (auto_chunk_repeated_char_sizes "a"%char). reflexivity.
Defined.
